(** * pgutil: the [Schema] SQL text generator of [src/Schema.ts]

    A shallow embedding of the TypeScript class [Schema] and the properties
    of the SQL text it generates.

    Modelling conventions.
    - A JavaScript string is a [string] (a sequence of 8-bit characters);
      [toLowerCase]/[toUpperCase] act on the ASCII letters.
    - A JavaScript number is a type [num] with its conversion to text
      [Number_toString] (the class [JsNum]); the instance on [Z] prints an
      integer in decimal notation and is used for the concrete statements.
    - An optional property is an [option]; the truthiness tests of the source
      ([col.primaryKey], [col.sqlType || 'text'], [ev.label ? .. : ..]) are
      written out by [truthy], [or_else] and [nonempty].
    - A method of the class is a computation of the state monad [Method]
      over the private fields of the object: a read of [this.columns] is
      [this_columns], a call of [this.getAlias()] is a bind. *)

From Stdlib Require Import Ascii String List ZArith Bool Lia.
From stdpp Require Import base option list strings gmap pretty.

Local Open Scope char_scope.
Local Open Scope stdpp_scope.

(** ** JavaScript strings *)

Module JsString.

(** The characters that cannot be written inside a literal. *)
Definition dq : string := String "034" EmptyString.
Definition backslash : string := String "092" EmptyString.
Definition newline : string := String "010" EmptyString.

Definition is_upper (c : ascii) : bool :=
  let n := nat_of_ascii c in (65 <=? n)%nat && (n <=? 90)%nat.

Definition is_lower (c : ascii) : bool :=
  let n := nat_of_ascii c in (97 <=? n)%nat && (n <=? 122)%nat.

Definition lower_char (c : ascii) : ascii :=
  if is_upper c then ascii_of_nat (nat_of_ascii c + 32) else c.

Definition upper_char (c : ascii) : ascii :=
  if is_lower c then ascii_of_nat (nat_of_ascii c - 32) else c.

Fixpoint map_chars (f : ascii -> ascii) (s : string) : string :=
  match s with
  | EmptyString => EmptyString
  | String c rest => String (f c) (map_chars f rest)
  end.

(** [s.toLowerCase()] and [s.toUpperCase()]. *)
Definition toLowerCase : string -> string := map_chars lower_char.
Definition toUpperCase : string -> string := map_chars upper_char.

(** [s.replace(/c/g, by)] for a one-character pattern [c]. *)
Fixpoint replaceAll (c : ascii) (by_ : string) (s : string) : string :=
  match s with
  | EmptyString => EmptyString
  | String x rest =>
      if Ascii.eqb x c then by_ +:+ replaceAll c by_ rest
      else String x (replaceAll c by_ rest)
  end.

(** [s.startsWith(p)]. *)
Fixpoint startsWith (s p : string) {struct p} : bool :=
  match p, s with
  | EmptyString, _ => true
  | String _ _, EmptyString => false
  | String b p', String a s' => Ascii.eqb a b && startsWith s' p'
  end.

(** [s.substring(n)]: what is left of [s] after its first [n] characters. *)
Fixpoint substring (n : nat) (s : string) : string :=
  match n, s with
  | O, _ => s
  | S _, EmptyString => EmptyString
  | S n', String _ rest => substring n' rest
  end.

(** [xs.join(sep)]. *)
Fixpoint join (sep : string) (xs : list string) : string :=
  match xs with
  | [] => EmptyString
  | [x] => x
  | x :: rest => x +:+ sep +:+ join sep rest
  end.

(** [hay.includes(needle)], used to state what a text contains. *)
Fixpoint includes (hay needle : string) : bool :=
  startsWith hay needle ||
  match hay with
  | EmptyString => false
  | String _ rest => includes rest needle
  end.

(** [hay.endsWith(suffix)], used to state how a text ends. *)
Fixpoint endsWith (hay suffix : string) : bool :=
  String.eqb hay suffix ||
  match hay with
  | EmptyString => false
  | String _ rest => endsWith rest suffix
  end.

End JsString.
Import JsString.

(** ** JavaScript values *)

(** [x] of type [boolean | undefined] used as a condition. *)
Definition truthy (x : option bool) : bool :=
  match x with Some true => true | _ => false end.

(** A string used as a condition: the empty string is falsy. *)
Definition nonempty (s : string) : bool :=
  match s with EmptyString => false | String _ _ => true end.

(** [x || d] on an optional string. *)
Definition or_else (x : option string) (d : string) : string :=
  match x with
  | Some s => if nonempty s then s else d
  | None => d
  end.

(** An optional array or object used as a condition: present means truthy. *)
Definition present {A : Type} (x : option A) : bool :=
  match x with Some _ => true | None => false end.

(** A [string | null] inside a template literal. *)
Definition interpolate (x : option string) : string :=
  match x with Some s => s | None => "null" end.

(** The numbers of JavaScript, with [String(n)]. *)
Class JsNum (num : Type) := Number_toString : num -> string.

(** Integers in decimal notation. *)
#[export] Instance Z_JsNum : JsNum Z := fun z => pretty z.

Definition Boolean_toString (b : bool) : string :=
  if b then "true" else "false".

(** ** The data model of [Schema.ts] *)

Section Model.

Context {num : Type} `{JsNum num}.

(** [string | number], the [value] of an enumerated value. *)
Inductive EnumScalar :=
| EnumString (s : string)
| EnumNumber (n : num).

Record EnumValue := {
  ev_value : EnumScalar;
  ev_label : option string
}.

(** [string | number | boolean], a column default. *)
Inductive DefaultValue :=
| DefaultString (s : string)
| DefaultNumber (n : num)
| DefaultBoolean (b : bool).

Record Column := {
  name : string;
  sqlType : option string;
  primaryKey : option bool;
  nullable : option bool;
  autoIncrement : option bool;
  foreignKey : option bool;
  defaultValue : option DefaultValue;
  enumValues : option (list EnumValue)
}.

Inductive Action := CASCADE | SET_NULL | RESTRICT | NO_ACTION.

Definition Action_text (a : Action) : string :=
  match a with
  | CASCADE => "CASCADE"
  | SET_NULL => "SET NULL"
  | RESTRICT => "RESTRICT"
  | NO_ACTION => "NO ACTION"
  end.

Record ForeignKey := {
  localColumn : string;
  referencedTable : string;
  referencedColumn : string;
  onDelete : option Action;
  onUpdate : option Action
}.

(** [string | number | boolean | null], the value of a filter. *)
Inductive FilterValue :=
| ValueString (s : string)
| ValueNumber (n : num)
| ValueBoolean (b : bool)
| ValueNull.

(** The two shapes of a filter: [{column: ..}] and [{alias: ..}]; the
    source tells them apart with ['alias' in f]. *)
Inductive ColumnRef :=
| ByColumn (column : string)
| ByAlias (aliasColumn : string).

Record Filter := {
  target : ColumnRef;
  operator : option string;
  value : FilterValue
}.

(** The optional argument [filter?: Filter | Filter[]]. *)
Inductive FilterArg :=
| NoFilter
| OneFilter (f : Filter)
| FilterList (fs : list Filter).

(** The values an own property of the [data] object can hold. *)
Inductive JsValue :=
| JsUndefined
| JsNull
| JsBoolean (b : bool)
| JsNumber (n : num)
| JsString (s : string).

(** [Object.prototype.hasOwnProperty.call(data, key)]. *)
Definition hasOwnProperty (data : gmap string JsValue) (key : string) : bool :=
  present (data !! key).

(** The private fields of a [Schema] object. *)
Record Schema := {
  columns : list Column;
  constraints : list ForeignKey;
  tableName : string;
  alias : string
}.

(** ** Methods as state computations *)

Definition Method (A : Type) : Type := Schema -> A * Schema.

Definition ret {A} (a : A) : Method A := fun this => (a, this).

Definition bind {A B} (m : Method A) (k : A -> Method B) : Method B :=
  fun this => let (a, this') := m this in k a this'.

Definition reads {A} (field : Schema -> A) : Method A :=
  fun this => (field this, this).

Definition writes (update : Schema -> Schema) : Method unit :=
  fun this => (tt, update this).

(** The value a call returns and the object it leaves. *)
Definition result {A} (m : Method A) (this : Schema) : A := fst (m this).
Definition after {A} (m : Method A) (this : Schema) : Schema := snd (m this).

Notation "'let*' x ':=' m 'in' k" := (bind m (fun x => k))
  (at level 10, x name, m at level 100, k at level 200).

(** [xs.map(f)] with a callback that calls methods of [this]. *)
Fixpoint mapM {A B} (f : A -> Method B) (xs : list A) : Method (list B) :=
  match xs with
  | [] => ret []
  | x :: rest => let* y := f x in let* ys := mapM f rest in ret (y :: ys)
  end.

Definition this_columns : Method (list Column) := reads columns.
Definition this_constraints : Method (list ForeignKey) := reads constraints.
Definition this_tableName : Method string := reads tableName.
Definition this_alias : Method string := reads alias.

(** ** Construction and mutation *)

(** [new Schema(tableName, alias?, columns?, constraints?)]. *)
Definition new_Schema (tableName : string) (alias : option string)
    (columns : option (list Column)) (constraints : option (list ForeignKey))
    : Schema :=
  {| tableName := tableName;
     alias := toLowerCase (or_else alias tableName);
     columns := default [] columns;
     constraints := default [] constraints |}.

Definition push_columns (cs : list Column) (this : Schema) : Schema :=
  {| columns := columns this ++ cs; constraints := constraints this;
     tableName := tableName this; alias := alias this |}.

Definition push_constraints (fks : list ForeignKey) (this : Schema) : Schema :=
  {| columns := columns this; constraints := constraints this ++ fks;
     tableName := tableName this; alias := alias this |}.

(** [addColumn(column: Column | Column[])]; the returned [this] is the
    state after the call. *)
Definition addColumn (column : Column + list Column) : Method unit :=
  match column with
  | inr cs => writes (push_columns cs)
  | inl c => writes (push_columns [c])
  end.

Definition addConstraint (constraint : ForeignKey + list ForeignKey) : Method unit :=
  match constraint with
  | inr fks => writes (push_constraints fks)
  | inl fk => writes (push_constraints [fk])
  end.

(** ** Naming and projection *)

Definition getAlias : Method string := this_alias.

(** The callback [(col) => includePrimary || !col.primaryKey]. *)
Definition keep (includePrimary : bool) (col : Column) : bool :=
  includePrimary || negb (truthy (primaryKey col)).

Definition getColumnAliases (includePrimary : bool) : Method (list string) :=
  let* alias := getAlias in
  let* cols := this_columns in
  ret (map (fun col => alias +:+ "_" +:+ name col)
           (List.filter (keep includePrimary) cols)).

Definition getColumnNames (includePrimary : bool) : Method (list string) :=
  let* alias := getAlias in
  let* cols := this_columns in
  ret (map (fun col => alias +:+ "." +:+ name col)
           (List.filter (keep includePrimary) cols)).

Fixpoint getPrimaryKey_from (useAlias : bool) (cols : list Column)
    : Method (option string) :=
  match cols with
  | [] => ret None
  | col :: rest =>
      if truthy (primaryKey col) then
        let* alias := getAlias in
        ret (Some (alias +:+ (if useAlias then "_" else ".") +:+ name col))
      else getPrimaryKey_from useAlias rest
  end.

Definition getPrimaryKey (useAlias : bool) : Method (option string) :=
  let* cols := this_columns in
  getPrimaryKey_from useAlias cols.

(** [getTableName(useSql = false)]: an omitted argument is [false]. *)
Definition getTableName (useSql : bool) : Method string :=
  let* tableName := this_tableName in
  ret (if useSql then toLowerCase tableName else tableName).

Definition aliasToColumnName (aliasColumn : string) : Method string :=
  let* alias := getAlias in
  let prefix := alias +:+ "_" in
  if negb (startsWith aliasColumn prefix) then ret aliasColumn
  else ret (substring (String.length prefix) aliasColumn).

(** [String(ev.value)]. *)
Definition EnumScalar_toString (v : EnumScalar) : string :=
  match v with
  | EnumString s => s
  | EnumNumber n => Number_toString n
  end.

(** The literal of an enumerated value: a number as it is, anything else
    between single quotes with the single quotes doubled. *)
Definition enumLiteral (v : EnumScalar) : string :=
  match v with
  | EnumNumber n => Number_toString n
  | EnumString _ => "'" +:+ replaceAll "'" "''" (EnumScalar_toString v) +:+ "'"
  end.

(** The callback of [enumExpression]: the arm of one enumerated value. *)
Definition whenThen (colRef : string) (ev : EnumValue) : string :=
  let valLiteral := enumLiteral (ev_value ev) in
  let label :=
      match ev_label ev with
      | Some l =>
          if nonempty l then replaceAll "'" "''" l
          else "Value " +:+ dq +:+
               replaceAll "034" (backslash +:+ dq) (EnumScalar_toString (ev_value ev))
               +:+ dq
      | None =>
          "Value " +:+ dq +:+
          replaceAll "034" (backslash +:+ dq) (EnumScalar_toString (ev_value ev))
          +:+ dq
      end in
  "WHEN " +:+ colRef +:+ " = " +:+ valLiteral +:+ " THEN '" +:+ label +:+ "'".

Definition enumExpression (col : Column) : Method (option string) :=
  match enumValues col with
  | None => ret None
  | Some evs =>
      let* alias := getAlias in
      let colRef := alias +:+ "." +:+ name col in
      let whenThens := join " " (map (whenThen colRef) evs) in
      ret (Some ("(CASE " +:+ whenThens +:+ " ELSE 'Value " +:+ dq +:+ "' || " +:+ colRef
                 +:+ " || '" +:+ dq +:+ "' END)"))
  end.

(** The callback of [getColumnFields]: the select-expression of a column. *)
Definition columnField (alias : string) (useLabels : bool) (col : Column) : Method string :=
  if useLabels && present (enumValues col) then
    let* e := enumExpression col in
    ret (interpolate e +:+ " AS " +:+ dq +:+ alias +:+ "_" +:+ name col +:+ "_label" +:+ dq)
  else
    ret (alias +:+ "." +:+ name col +:+ " AS " +:+ dq +:+ alias +:+ "_" +:+ name col +:+ dq).

Definition getColumnFields (includePrimary useLabels : bool) : Method (list string) :=
  let* alias := getAlias in
  let* cols := this_columns in
  mapM (columnField alias useLabels) (List.filter (keep includePrimary) cols).

(** ** DDL generation *)

(** [`${col.defaultValue}`] and the quoted form of a string default. *)
Definition defaultLiteral (d : DefaultValue) : string :=
  match d with
  | DefaultString s => "'" +:+ replaceAll "'" "''" s +:+ "'"
  | DefaultNumber n => Number_toString n
  | DefaultBoolean b => Boolean_toString b
  end.

(** The callback of [sqlCreateTable]: [colDef] is assigned step by step. *)
Definition columnDefinition (col : Column) : string :=
  let colDef := name col +:+ " " +:+ or_else (sqlType col) "text" in
  let colDef := if truthy (primaryKey col) then colDef +:+ " PRIMARY KEY" else colDef in
  let colDef := if truthy (nullable col) then colDef +:+ " NULL" else colDef in
  let colDef :=
    if truthy (autoIncrement col) then colDef +:+ " GENERATED ALWAYS AS IDENTITY"
    else colDef in
  let colDef :=
    match defaultValue col with
    | Some d => colDef +:+ " DEFAULT " +:+ defaultLiteral d
    | None => colDef
    end in
  colDef.

Definition sqlCreateTable : Method string :=
  let* table := getTableName true in
  let* cols := this_columns in
  let columnsSql := join ", " (map columnDefinition cols) in
  ret ("CREATE TABLE IF NOT EXISTS " +:+ table +:+ " (" +:+ columnsSql +:+ ");").

(** The idempotent block shared by the two constraint generators. *)
Definition constraintBlock (table constraintName body : string) : string :=
  join newline
    [ "DO $$"; "BEGIN"; "  IF NOT EXISTS (";
      "    SELECT 1 FROM pg_constraint c"; "    JOIN pg_class t ON c.conrelid = t.oid";
      "    WHERE lower(c.conname) = lower('" +:+ constraintName
        +:+ "') AND t.relname = '" +:+ table +:+ "'";
      "  ) THEN";
      "    ALTER TABLE " +:+ table +:+ " ADD CONSTRAINT " +:+ constraintName +:+ body;
      "  END IF;"; "END"; "$$;" ].

Definition sqlCreateEnumConstraints : Method (list string) :=
  let* table := getTableName true in
  let* cols := this_columns in
  ret (fold_left
         (fun constraints col =>
            match enumValues col with
            | Some evs =>
                let constraintName := table +:+ "_" +:+ name col +:+ "_enum_chk" in
                let allowedValues := join ", " (map (fun ev => enumLiteral (ev_value ev)) evs) in
                constraints ++
                [constraintBlock table constraintName
                   (" CHECK (" +:+ name col +:+ " IN (" +:+ allowedValues +:+ "));")]
            | None => constraints
            end)
         cols []).

Definition sqlCreateTableConstraints : Method (list string) :=
  let* table := getTableName true in
  let* fks := this_constraints in
  ret (fold_left
         (fun constraintsSql fk =>
            let constraintName := table +:+ "_" +:+ localColumn fk +:+ "_fk" in
            let localCol := localColumn fk in
            let refTable := toLowerCase (referencedTable fk) in
            let refCol := referencedColumn fk in
            let actions := [] in
            let actions :=
              match onDelete fk with
              | Some a => actions ++ ["ON DELETE " +:+ Action_text a]
              | None => actions
              end in
            let actions :=
              match onUpdate fk with
              | Some a => actions ++ ["ON UPDATE " +:+ Action_text a]
              | None => actions
              end in
            let actionSql :=
              match actions with
              | [] => EmptyString
              | _ => " " +:+ join " " actions
              end in
            constraintsSql ++
            [constraintBlock table constraintName
               (" FOREIGN KEY (" +:+ localCol +:+ ") REFERENCES " +:+ refTable
                +:+ "(" +:+ refCol +:+ ")" +:+ actionSql +:+ ";")])
         fks []).

Definition sqlTableDrop : Method string :=
  let* table := getTableName true in
  ret ("DROP TABLE IF EXISTS " +:+ table +:+ ";").

(** ** DML generation *)

(** The callback of [whereClause]: one condition per filter. *)
Definition condition (alias : string) (f : Filter) : Method string :=
  let* colRef :=
    match target f with
    | ByAlias a =>
        let* colName := aliasToColumnName a in
        ret (alias +:+ "." +:+ colName)
    | ByColumn c => ret (alias +:+ "." +:+ c)
    end in
  let operator := or_else (operator f) "=" in
  match value f with
  | ValueNull =>
      let op := if String.eqb (toUpperCase operator) "IS NOT" then "IS NOT" else "IS" in
      ret (colRef +:+ " " +:+ op +:+ " NULL")
  | ValueNumber n =>
      ret (colRef +:+ " " +:+ operator +:+ " " +:+ Number_toString n)
  | ValueBoolean b =>
      ret (colRef +:+ " " +:+ operator +:+ " " +:+ (if b then "TRUE" else "FALSE"))
  | ValueString s =>
      ret (colRef +:+ " " +:+ operator +:+ " " +:+ ("'" +:+ replaceAll "'" "''" s +:+ "'"))
  end.

Definition whereClause (filter : FilterArg) : Method string :=
  match filter with
  | NoFilter => ret EmptyString
  | _ =>
      let* alias := getAlias in
      let filters :=
        match filter with
        | FilterList fs => fs
        | OneFilter f => [f]
        | NoFilter => []
        end in
      let* conditions := mapM (condition alias) filters in
      ret (" WHERE " +:+ join " AND " conditions)
  end.

Definition sqlSelect (useLabels : bool) (filter : FilterArg) : Method string :=
  let* fieldList := getColumnFields true useLabels in
  let fields := join ", " fieldList in
  let* table := getTableName true in
  let* alias := getAlias in
  let* whereClause := whereClause filter in
  ret ("SELECT " +:+ fields +:+ " FROM " +:+ table +:+ " AS " +:+ alias +:+ whereClause).

Definition sqlInsert (data : gmap string JsValue) : Method string :=
  let* table := getTableName true in
  let* alias := getAlias in
  let* cols := this_columns in
  let '(columns, placeholders) :=
    fold_left
      (fun '(columns, placeholders) col =>
         let aliasKey := alias +:+ "_" +:+ name col in
         if hasOwnProperty data aliasKey then
           (columns ++ [alias +:+ "." +:+ name col], placeholders ++ ["$" +:+ aliasKey])
         else (columns, placeholders))
      cols ([], []) in
  if (length columns =? 0)%nat then ret EmptyString
  else ret ("INSERT INTO " +:+ table +:+ " AS " +:+ alias +:+ " (" +:+ join ", " columns
            +:+ ") VALUES (" +:+ join ", " placeholders +:+ ")").

Definition sqlUpdate (data : gmap string JsValue) : Method string :=
  let* table := getTableName true in
  let* alias := getAlias in
  let* cols := this_columns in
  let setClauses :=
    fold_left
      (fun setClauses col =>
         if hasOwnProperty data (name col) && negb (truthy (primaryKey col)) then
           setClauses ++ [alias +:+ "." +:+ name col +:+ " = $" +:+ alias +:+ "_" +:+ name col]
         else setClauses)
      cols [] in
  let* pkField := getPrimaryKey false in
  let* pk := getPrimaryKey true in
  let pkPlaceholder := "$" +:+ interpolate pk in
  ret ("UPDATE " +:+ table +:+ " AS " +:+ alias +:+ " SET " +:+ join ", " setClauses
       +:+ " WHERE " +:+ interpolate pkField +:+ " = " +:+ pkPlaceholder).

Definition sqlDelete (filter : FilterArg) : Method string :=
  let* table := getTableName true in
  let* alias := getAlias in
  let* whereClause := whereClause filter in
  ret ("DELETE FROM " +:+ table +:+ " AS " +:+ alias +:+ whereClause).

End Model.

Arguments EnumScalar : clear implicits.
Arguments EnumValue : clear implicits.
Arguments DefaultValue : clear implicits.
Arguments Column : clear implicits.
Arguments FilterValue : clear implicits.
Arguments Filter : clear implicits.
Arguments FilterArg : clear implicits.
Arguments JsValue : clear implicits.
Arguments Schema : clear implicits.
Arguments Method : clear implicits.

(** ** The vocabulary of the specification *)

(** [Selects P l k]: [k] lists, in the order of [l], exactly the elements of
    [l] that satisfy [P]. *)
Inductive Selects {A : Type} (P : A -> Prop) : list A -> list A -> Prop :=
| Selects_nil : Selects P [] []
| Selects_keep x l k : P x -> Selects P l k -> Selects P (x :: l) (x :: k)
| Selects_omit x l k : ~ P x -> Selects P l k -> Selects P (x :: l) k.

(** [Replaced c by_ s t]: [t] is [s] with every occurrence of the character
    [c] replaced by the text [by_]. *)
Inductive Replaced (c : ascii) (by_ : string) : string -> string -> Prop :=
| Replaced_end : Replaced c by_ EmptyString EmptyString
| Replaced_hit s t : Replaced c by_ s t -> Replaced c by_ (String c s) (by_ +:+ t)
| Replaced_other x s t :
    x <> c -> Replaced c by_ s t -> Replaced c by_ (String x s) (String x t).

(** Single quotes doubled, and the text between single quotes. *)
Definition Doubled : string -> string -> Prop := Replaced "'" "''".

Definition Quoted (s literal : string) : Prop :=
  exists t, Doubled s t /\ literal = "'" +:+ t +:+ "'".

(** Double quotes escaped with a backslash. *)
Definition Escaped : string -> string -> Prop := Replaced "034" (backslash +:+ dq).

(** Equality of two texts up to the case of their ASCII letters. *)
Fixpoint equal_ignoring_case (a b : string) : bool :=
  match a, b with
  | EmptyString, EmptyString => true
  | String x a', String y b' =>
      Ascii.eqb (lower_char x) (lower_char y) && equal_ignoring_case a' b'
  | _, _ => false
  end.

Definition Contains (hay needle : string) : Prop :=
  exists before behind, hay = before +:+ needle +:+ behind.

Definition EndsIn (hay suffix : string) : Prop :=
  exists before, hay = before +:+ suffix.

Section Specification.

Context {num : Type} `{JsNum num}.

(** The first column marked primary key. *)
Inductive FirstPrimary : list (Column num) -> Column num -> Prop :=
| FirstPrimary_here pk rest :
    primaryKey pk = Some true -> FirstPrimary (pk :: rest) pk
| FirstPrimary_later col rest pk :
    primaryKey col <> Some true -> FirstPrimary rest pk -> FirstPrimary (col :: rest) pk.

(** The part of a definition that a flag adds. *)
Definition when_set (flag : option bool) (text : string) : string :=
  if truthy flag then text else EmptyString.

(** The literal of a default value. *)
Inductive DefaultLiteral : DefaultValue num -> string -> Prop :=
| DefaultLiteral_string s literal : Quoted s literal -> DefaultLiteral (DefaultString s) literal
| DefaultLiteral_number n : DefaultLiteral (DefaultNumber n) (Number_toString n)
| DefaultLiteral_true : DefaultLiteral (DefaultBoolean true) "true"
| DefaultLiteral_false : DefaultLiteral (DefaultBoolean false) "false".

(** A column definition of [CREATE TABLE]: the name, the type, then the four
    optional parts in their fixed order. *)
Inductive ColumnDefinition (col : Column num) : string -> Prop :=
| ColumnDefinition_default d literal :
    defaultValue col = Some d -> DefaultLiteral d literal ->
    ColumnDefinition col
      (name col +:+ " " +:+ or_else (sqlType col) "text"
       +:+ when_set (primaryKey col) " PRIMARY KEY"
       +:+ when_set (nullable col) " NULL"
       +:+ when_set (autoIncrement col) " GENERATED ALWAYS AS IDENTITY"
       +:+ " DEFAULT " +:+ literal)
| ColumnDefinition_plain :
    defaultValue col = None ->
    ColumnDefinition col
      (name col +:+ " " +:+ or_else (sqlType col) "text"
       +:+ when_set (primaryKey col) " PRIMARY KEY"
       +:+ when_set (nullable col) " NULL"
       +:+ when_set (autoIncrement col) " GENERATED ALWAYS AS IDENTITY").

(** The literal of an enumerated value. *)
Inductive EnumLiteral : EnumScalar num -> string -> Prop :=
| EnumLiteral_number n : EnumLiteral (EnumNumber n) (Number_toString n)
| EnumLiteral_string s literal : Quoted s literal -> EnumLiteral (EnumString s) literal.

(** The label of an enumerated value: its own label with the single quotes
    doubled, or [Value "<value>"] when it has none (an empty label counts as
    none). *)
Inductive EnumLabel (ev : EnumValue num) : string -> Prop :=
| EnumLabel_given l t :
    ev_label ev = Some l -> l <> EmptyString -> Doubled l t -> EnumLabel ev t
| EnumLabel_fallback e :
    ev_label ev = None \/ ev_label ev = Some EmptyString ->
    Escaped (EnumScalar_toString (ev_value ev)) e ->
    EnumLabel ev ("Value " +:+ dq +:+ e +:+ dq).

(** One [WHEN .. THEN ..] arm of the CASE expression of a column. *)
Inductive WhenThen (colRef : string) (ev : EnumValue num) : string -> Prop :=
| WhenThen_intro literal label :
    EnumLiteral (ev_value ev) literal -> EnumLabel ev label ->
    WhenThen colRef ev
      ("WHEN " +:+ colRef +:+ " = " +:+ literal +:+ " THEN '" +:+ label +:+ "'").

(** The literal of a filter value that is not null. *)
Inductive FilterLiteral : FilterValue num -> string -> Prop :=
| FilterLiteral_string s literal : Quoted s literal -> FilterLiteral (ValueString s) literal
| FilterLiteral_number n : FilterLiteral (ValueNumber n) (Number_toString n)
| FilterLiteral_true : FilterLiteral (ValueBoolean true) "TRUE"
| FilterLiteral_false : FilterLiteral (ValueBoolean false) "FALSE".

(** The operator of a filter is [IS NOT], in any case of its letters. *)
Definition asks_is_not (f : Filter num) : bool :=
  match operator f with
  | Some op => equal_ignoring_case op "IS NOT"
  | None => false
  end.

(** A method that leaves the object as it found it, and returns the same
    value when it is called again. *)
Definition read_only {A : Type} (m : Method num A) : Prop :=
  forall this, after m this = this.

Definition repeatable {A : Type} (m : Method num A) : Prop :=
  forall this, result m (after m this) = result m this.

(** The four fields of the object are what they were. *)
Definition unchanged (before now : Schema num) : Prop :=
  columns now = columns before /\ constraints now = constraints before /\
  tableName now = tableName before /\ alias now = alias before.

Definition stateless {A : Type} (m : Method num A) : Prop :=
  forall this, unchanged this (after m this) /\ result m (after m this) = result m this.

End Specification.

(** ** The descriptors of the examples *)

Module Example.

Definition column (name : string) (sqlType : string) (primaryKey : option bool)
    : Column Z :=
  {| name := name; sqlType := Some sqlType; primaryKey := primaryKey;
     nullable := None; autoIncrement := None; foreignKey := None;
     defaultValue := None; enumValues := None |}.

Definition id : Column Z := column "id" "uuid" (Some true).
Definition name_ : Column Z := column "name" "text" None.
Definition title : Column Z := column "title" "text" (Some false).

Definition status : Column Z :=
  {| name := "status"; sqlType := Some "smallint"; primaryKey := None;
     nullable := None; autoIncrement := None; foreignKey := None;
     defaultValue := None;
     enumValues := Some [ {| ev_value := EnumNumber 0%Z; ev_label := Some "Off" |};
                          {| ev_value := EnumNumber 1%Z; ev_label := Some "On" |} ] |}.

Definition surname : Column Z :=
  {| name := "surname"; sqlType := None; primaryKey := None;
     nullable := Some true; autoIncrement := None; foreignKey := None;
     defaultValue := Some (DefaultString "O'Brien"); enumValues := None |}.

(** The descriptor of [tests/schema_test.ts]. *)
Definition tested : Schema Z :=
  new_Schema "MyTable" (Some "mt") (Some [id; name_; status]) None.

(** Alias [mt], columns [id] (primary) and [name]. *)
Definition mytable : Schema Z :=
  new_Schema "mytable" (Some "mt") (Some [id; name_]) None.

(** A descriptor without a primary key. *)
Definition keyless : Schema Z :=
  new_Schema "mytable" (Some "mt") (Some [name_]) None.

(** A descriptor whose second column says [primaryKey: false]. *)
Definition titled : Schema Z :=
  new_Schema "mytable" (Some "mt") (Some [id; title]) None.

Definition people : Schema Z :=
  new_Schema "People" None (Some [id; surname]) None.

End Example.

(** ** Descriptors that differ in one field, and sequences of mutations *)

Section Variations.

Context {num : Type}.

(** The same descriptor with another column list, or another table name. *)
Definition with_columns (cols : list (Column num)) (this : Schema num) : Schema num :=
  {| columns := cols; constraints := constraints this;
     tableName := tableName this; alias := alias this |}.

Definition with_tableName (table : string) (this : Schema num) : Schema num :=
  {| columns := columns this; constraints := constraints this;
     tableName := table; alias := alias this |}.

(** The same column with another [foreignKey] flag. *)
Definition with_foreignKey (flag : option bool) (col : Column num) : Column num :=
  {| name := name col; sqlType := sqlType col; primaryKey := primaryKey col;
     nullable := nullable col; autoIncrement := autoIncrement col;
     foreignKey := flag; defaultValue := defaultValue col;
     enumValues := enumValues col |}.

(** A call of one of the two mutators, and a sequence of such calls. *)
Inductive Mutation :=
| AddColumn (column : Column num + list (Column num))
| AddConstraint (constraint : ForeignKey + list ForeignKey).

Definition mutate (m : Mutation) : Method num unit :=
  match m with
  | AddColumn column => addColumn column
  | AddConstraint constraint => addConstraint constraint
  end.

Definition mutations (ms : list Mutation) (this : Schema num) : Schema num :=
  fold_left (fun this m => after (mutate m) this) ms this.

(** The trailing actions of a foreign key: only the ones that are present. *)
Definition actions_text (fk : ForeignKey) : string :=
  match onDelete fk, onUpdate fk with
  | None, None => EmptyString
  | Some d, None => " ON DELETE " +:+ Action_text d
  | None, Some u => " ON UPDATE " +:+ Action_text u
  | Some d, Some u => " ON DELETE " +:+ Action_text d +:+ " ON UPDATE " +:+ Action_text u
  end.

End Variations.

(** ** More descriptors for the examples *)

Module Sample.

Definition author : ForeignKey :=
  {| localColumn := "author"; referencedTable := "People"; referencedColumn := "id";
     onDelete := Some CASCADE; onUpdate := None |}.

Definition editor : ForeignKey :=
  {| localColumn := "editor"; referencedTable := "People"; referencedColumn := "id";
     onDelete := Some SET_NULL; onUpdate := Some NO_ACTION |}.

Definition kind : Column Z :=
  {| name := "kind"; sqlType := Some "text"; primaryKey := None;
     nullable := None; autoIncrement := None; foreignKey := None;
     defaultValue := None;
     enumValues := Some [ {| ev_value := EnumString "it's"; ev_label := None |} ] |}.

Definition second_key : Column Z := Example.column "code" "text" (Some true).

(** A descriptor with two foreign keys and an enumerated column. *)
Definition books : Schema Z :=
  new_Schema "Books" (Some "B") (Some [Example.id; Example.name_; kind])
             (Some [author; editor]).

End Sample.

(** ** Texts *)

Lemma append_empty_l (s : string) : EmptyString +:+ s = s.
Proof. reflexivity. Qed.

Lemma append_cons (c : ascii) (s t : string) : String c s +:+ t = String c (s +:+ t).
Proof. reflexivity. Qed.

Lemma append_empty_r (s : string) : s +:+ EmptyString = s.
Proof.
  induction s as [|c s IH]; [reflexivity|].
  rewrite append_cons, IH. reflexivity.
Qed.

Lemma append_assoc (s t u : string) : (s +:+ t) +:+ u = s +:+ (t +:+ u).
Proof.
  induction s as [|c s IH]; [reflexivity|].
  rewrite !append_cons, IH. reflexivity.
Qed.

Lemma startsWith_app (p rest : string) : startsWith (p +:+ rest) p = true.
Proof.
  induction p as [|c p IH]; [reflexivity|].
  rewrite append_cons. cbn. rewrite Ascii.eqb_refl, IH. reflexivity.
Qed.

Lemma startsWith_inv (s p : string) :
  startsWith s p = true -> exists rest, s = p +:+ rest.
Proof.
  revert s. induction p as [|c p IH]; intros s Hs.
  - exists s. reflexivity.
  - destruct s as [|a s]; [discriminate|]. cbn in Hs.
    apply andb_true_iff in Hs as [Hc Hp].
    apply Ascii.eqb_eq in Hc as ->.
    destruct (IH _ Hp) as [rest ->]. exists rest. reflexivity.
Qed.

Lemma substring_app (p rest : string) : substring (String.length p) (p +:+ rest) = rest.
Proof.
  induction p as [|c p IH]; [reflexivity|].
  rewrite append_cons. cbn. exact IH.
Qed.

Lemma replaceAll_Replaced (c : ascii) (by_ s : string) :
  Replaced c by_ s (replaceAll c by_ s).
Proof.
  induction s as [|x s IH]; cbn; [constructor|].
  destruct (Ascii.eqb_spec x c) as [->|Hx]; constructor; assumption.
Qed.

Lemma Replaced_replaceAll (c : ascii) (by_ s t : string) :
  Replaced c by_ s t -> t = replaceAll c by_ s.
Proof.
  induction 1 as [|s t _ IH|x s t Hx _ IH]; cbn.
  - reflexivity.
  - rewrite Ascii.eqb_refl, IH. reflexivity.
  - apply Ascii.eqb_neq in Hx. rewrite Hx, IH. reflexivity.
Qed.

Lemma Quoted_replaceAll (s : string) :
  Quoted s ("'" +:+ replaceAll "'" "''" s +:+ "'").
Proof. exists (replaceAll "'" "''" s). split; [apply replaceAll_Replaced | reflexivity]. Qed.

Lemma includes_Contains (hay needle : string) :
  Contains hay needle -> includes hay needle = true.
Proof.
  intros (before & behind & ->).
  induction before as [|c before IH].
  - rewrite append_empty_l.
    destruct (needle +:+ behind) eqn:E; cbn; rewrite <- E, startsWith_app; reflexivity.
  - rewrite append_cons. cbn. rewrite IH. apply orb_true_r.
Qed.

Lemma Contains_includes (hay needle : string) :
  includes hay needle = true -> Contains hay needle.
Proof.
  induction hay as [|c hay IH]; cbn; intros Hs.
  - rewrite orb_false_r in Hs. apply startsWith_inv in Hs as [rest ->].
    exists EmptyString, rest. reflexivity.
  - apply orb_true_iff in Hs as [Hs|Hs].
    + apply startsWith_inv in Hs as [rest ->]. exists EmptyString, rest. reflexivity.
    + destruct (IH Hs) as (before & behind & ->).
      exists (String c before), behind. reflexivity.
Qed.

Lemma endsWith_EndsIn (hay suffix : string) :
  EndsIn hay suffix -> endsWith hay suffix = true.
Proof.
  intros [before ->].
  induction before as [|c before IH].
  - rewrite append_empty_l. destruct suffix; cbn; rewrite ?Ascii.eqb_refl, ?String.eqb_refl; reflexivity.
  - rewrite append_cons. cbn. rewrite IH. apply orb_true_r.
Qed.

Lemma Contains_app_r (before hay needle : string) :
  Contains hay needle -> Contains (before +:+ hay) needle.
Proof.
  intros (b & e & ->). exists (before +:+ b), e. rewrite append_assoc. reflexivity.
Qed.

Lemma Contains_app_l (hay behind needle : string) :
  Contains hay needle -> Contains (hay +:+ behind) needle.
Proof.
  intros (b & e & ->). exists b, (e +:+ behind). rewrite !append_assoc. reflexivity.
Qed.

Lemma Contains_refl (s : string) : Contains s s.
Proof. exists EmptyString, EmptyString. rewrite append_empty_r. reflexivity. Qed.

Lemma join_cons (sep x : string) (xs : list string) :
  xs <> [] -> join sep (x :: xs) = x +:+ sep +:+ join sep xs.
Proof. destruct xs; [congruence | reflexivity]. Qed.

Lemma Contains_join (sep x : string) (xs : list string) :
  In x xs -> Contains (join sep xs) x.
Proof.
  induction xs as [|y xs IH]; [intros []|].
  intros [->|Hx].
  - destruct xs; [apply Contains_refl | apply Contains_app_l, Contains_refl].
  - destruct xs as [|z xs]; [destruct Hx|].
    rewrite join_cons by discriminate.
    apply Contains_app_r, Contains_app_r, IH, Hx.
Qed.

(** ** Lists built by a loop that pushes *)

Lemma Selects_filter {A : Type} (P : A -> Prop) (p : A -> bool) (l : list A) :
  (forall x, P x <-> p x = true) -> Selects P l (List.filter p l).
Proof.
  intros HP. induction l as [|x l IH]; cbn; [constructor|].
  destruct (p x) eqn:Hx.
  - apply Selects_keep; [apply HP, Hx | exact IH].
  - apply Selects_omit; [rewrite HP, Hx; discriminate | exact IH].
Qed.

Lemma Selects_unique {A : Type} (P : A -> Prop) (l k k' : list A) :
  Selects P l k -> Selects P l k' -> k = k'.
Proof.
  intros Hk. revert k'.
  induction Hk as [|x l k Hx _ IH|x l k Hx _ IH]; intros k' Hk'; inversion Hk'; subst;
    try contradiction; try reflexivity.
  - f_equal. apply IH. assumption.
  - apply IH. assumption.
Qed.

Lemma Selects_Forall {A : Type} (P : A -> Prop) (l k : list A) :
  Selects P l k -> Forall P k.
Proof. induction 1; auto. Qed.

Lemma Selects_sublist {A : Type} (P : A -> Prop) (l k : list A) :
  Selects P l k -> sublist k l.
Proof. induction 1; constructor; assumption. Qed.

Lemma Selects_nil_iff {A : Type} (P : A -> Prop) (l : list A) :
  Selects P l [] <-> forall x, In x l -> ~ P x.
Proof.
  split.
  - intros Hs. remember [] as k eqn:Ek.
    induction Hs as [|x l k Hx _ IH|x l k Hx _ IH]; [intros ? []|discriminate|].
    intros y [<-|Hy]; [exact Hx | apply IH; assumption].
  - induction l as [|x l IH]; intros Hl; [constructor|].
    apply Selects_omit; [apply Hl; left; reflexivity|].
    apply IH. intros y Hy. apply Hl. right. exact Hy.
Qed.

Lemma fold_left_push {A B : Type} (p : A -> bool) (f : A -> B) (l : list A) (acc : list B) :
  fold_left (fun acc x => if p x then acc ++ [f x] else acc) l acc
  = acc ++ map f (List.filter p l).
Proof.
  revert acc. induction l as [|x l IH]; intros acc; cbn.
  - rewrite app_nil_r. reflexivity.
  - rewrite IH. destruct (p x); cbn; [rewrite <- app_assoc|]; reflexivity.
Qed.

Lemma fold_left_push2 {A B C : Type} (p : A -> bool) (f : A -> B) (g : A -> C)
    (l : list A) (acc : list B) (acc' : list C) :
  fold_left (fun '(xs, ys) x => if p x then (xs ++ [f x], ys ++ [g x]) else (xs, ys))
            l (acc, acc')
  = (acc ++ map f (List.filter p l), acc' ++ map g (List.filter p l)).
Proof.
  revert acc acc'. induction l as [|x l IH]; intros acc acc'; cbn.
  - rewrite !app_nil_r. reflexivity.
  - destruct (p x); rewrite IH; cbn; rewrite <- ?app_assoc; reflexivity.
Qed.

(** ** Methods that only read *)

Section ReadOnly.

Context {num : Type} `{JsNum num}.

Local Abbreviation read_only := (@read_only num _).
Local Abbreviation repeatable := (@repeatable num _).
Local Abbreviation stateless := (@stateless num _).

Lemma read_only_ret {A : Type} (a : A) : read_only (ret a).
Proof. intros this. reflexivity. Qed.

Lemma read_only_reads {A : Type} (field : Schema num -> A) : read_only (reads field).
Proof. intros this. reflexivity. Qed.

Lemma read_only_bind {A B : Type} (m : Method num A) (k : A -> Method num B) :
  read_only m -> (forall a, read_only (k a)) -> read_only (bind m k).
Proof.
  intros Hm Hk this. unfold after, bind.
  specialize (Hm this). unfold after in Hm.
  destruct (m this) as [a this']. cbn in Hm. subst this'. apply Hk.
Qed.

Lemma read_only_mapM {A B : Type} (f : A -> Method num B) (xs : list A) :
  (forall x, read_only (f x)) -> read_only (mapM f xs).
Proof.
  intros Hf. induction xs as [|x xs IH]; cbn.
  - apply read_only_ret.
  - apply read_only_bind; [apply Hf|]. intros y.
    apply read_only_bind; [exact IH|]. intros ys. apply read_only_ret.
Qed.

Lemma read_only_if {A : Type} (b : bool) (m m' : Method num A) :
  read_only m -> read_only m' -> read_only (if b then m else m').
Proof. destruct b; auto. Qed.

Lemma read_only_repeatable {A : Type} (m : Method num A) : read_only m -> repeatable m.
Proof. intros Hm this. rewrite Hm. reflexivity. Qed.

(** What a read-only method computes. *)
Lemma run_read_only {A : Type} (m : Method num A) (this : Schema num) :
  read_only m -> m this = (result m this, this).
Proof.
  intros Hm. specialize (Hm this). unfold after, result in *.
  destruct (m this) as [a this']. cbn in *. subst. reflexivity.
Qed.

Lemma result_bind {A B : Type} (m : Method num A) (k : A -> Method num B) (this : Schema num) :
  read_only m -> result (bind m k) this = result (k (result m this)) this.
Proof.
  intros Hm. unfold result at 1. unfold bind. rewrite (run_read_only m this Hm). reflexivity.
Qed.

Lemma result_mapM {A B : Type} (f : A -> Method num B) (xs : list A) (this : Schema num) :
  (forall x, read_only (f x)) ->
  result (mapM f xs) this = map (fun x => result (f x) this) xs.
Proof.
  intros Hf. induction xs as [|x xs IH]; [reflexivity|]. cbn [mapM map].
  rewrite result_bind by apply Hf.
  rewrite result_bind by (apply read_only_mapM, Hf).
  rewrite IH. reflexivity.
Qed.

Ltac read_only_steps :=
  repeat first
    [ apply read_only_ret | apply read_only_reads
    | apply read_only_bind; [|intros ?]
    | apply read_only_if
    | apply read_only_mapM; intros ? ].

Lemma getAlias_read_only : read_only getAlias.
Proof. apply read_only_reads. Qed.

Lemma getTableName_read_only (useSql : bool) : read_only (getTableName useSql).
Proof. unfold getTableName, this_tableName. read_only_steps. Qed.

Lemma getColumnAliases_read_only (includePrimary : bool) :
  read_only (getColumnAliases includePrimary).
Proof. unfold getColumnAliases, getAlias, this_alias, this_columns. read_only_steps. Qed.

Lemma getColumnNames_read_only (includePrimary : bool) :
  read_only (getColumnNames includePrimary).
Proof. unfold getColumnNames, getAlias, this_alias, this_columns. read_only_steps. Qed.

Lemma getPrimaryKey_from_read_only (useAlias : bool) (cols : list (Column num)) :
  read_only (getPrimaryKey_from useAlias cols).
Proof.
  induction cols as [|col cols IH]; cbn.
  - apply read_only_ret.
  - apply read_only_if; [|exact IH]. unfold getAlias, this_alias. read_only_steps.
Qed.

Lemma getPrimaryKey_read_only (useAlias : bool) : read_only (getPrimaryKey useAlias).
Proof.
  unfold getPrimaryKey, this_columns.
  apply read_only_bind; [apply read_only_reads|]. apply getPrimaryKey_from_read_only.
Qed.

Lemma aliasToColumnName_read_only (aliasColumn : string) :
  read_only (aliasToColumnName aliasColumn).
Proof. unfold aliasToColumnName, getAlias, this_alias. read_only_steps. Qed.

Lemma enumExpression_read_only (col : Column num) : read_only (enumExpression col).
Proof.
  unfold enumExpression. destruct (enumValues col); [|apply read_only_ret].
  unfold getAlias, this_alias. read_only_steps.
Qed.

Lemma columnField_read_only (alias : string) (useLabels : bool) (col : Column num) :
  read_only (columnField alias useLabels col).
Proof.
  unfold columnField. apply read_only_if; [|apply read_only_ret].
  apply read_only_bind; [apply enumExpression_read_only|]. intros e. apply read_only_ret.
Qed.

Lemma getColumnFields_read_only (includePrimary useLabels : bool) :
  read_only (getColumnFields includePrimary useLabels).
Proof.
  unfold getColumnFields, getAlias, this_alias, this_columns.
  do 2 (apply read_only_bind; [apply read_only_reads|intros ?]).
  apply read_only_mapM. intros col. apply columnField_read_only.
Qed.

Lemma sqlCreateTable_read_only : read_only sqlCreateTable.
Proof.
  unfold sqlCreateTable, this_columns.
  apply read_only_bind; [apply getTableName_read_only|intros ?]. read_only_steps.
Qed.

Lemma sqlCreateEnumConstraints_read_only : read_only sqlCreateEnumConstraints.
Proof.
  unfold sqlCreateEnumConstraints, this_columns.
  apply read_only_bind; [apply getTableName_read_only|intros ?]. read_only_steps.
Qed.

Lemma sqlCreateTableConstraints_read_only : read_only sqlCreateTableConstraints.
Proof.
  unfold sqlCreateTableConstraints, this_constraints.
  apply read_only_bind; [apply getTableName_read_only|intros ?]. read_only_steps.
Qed.

Lemma sqlTableDrop_read_only : read_only sqlTableDrop.
Proof.
  unfold sqlTableDrop.
  apply read_only_bind; [apply getTableName_read_only|intros ?]. apply read_only_ret.
Qed.

Lemma condition_read_only (alias : string) (f : Filter num) : read_only (condition alias f).
Proof.
  unfold condition. apply read_only_bind.
  - destruct (target f); [apply read_only_ret|].
    apply read_only_bind; [apply aliasToColumnName_read_only|intros ?]. apply read_only_ret.
  - intros colRef. destruct (value f); apply read_only_ret.
Qed.

Lemma whereClause_read_only (filter : FilterArg num) : read_only (whereClause filter).
Proof.
  destruct filter; cbv beta iota delta [whereClause]; [apply read_only_ret| |];
    (apply read_only_bind; [apply getAlias_read_only|intros ?];
     apply read_only_bind; [apply read_only_mapM; intros ?; apply condition_read_only|intros ?];
     apply read_only_ret).
Qed.

Lemma sqlSelect_read_only (useLabels : bool) (filter : FilterArg num) :
  read_only (sqlSelect useLabels filter).
Proof.
  unfold sqlSelect.
  apply read_only_bind; [apply getColumnFields_read_only|intros ?].
  apply read_only_bind; [apply getTableName_read_only|intros ?].
  apply read_only_bind; [apply getAlias_read_only|intros ?].
  apply read_only_bind; [apply whereClause_read_only|intros ?].
  apply read_only_ret.
Qed.

Lemma sqlInsert_read_only (data : gmap string (JsValue num)) : read_only (sqlInsert data).
Proof.
  unfold sqlInsert.
  apply read_only_bind; [apply getTableName_read_only|intros ?].
  apply read_only_bind; [apply getAlias_read_only|intros ?].
  apply read_only_bind; [apply read_only_reads|intros cols].
  destruct (fold_left _ cols _) as [columns placeholders].
  apply read_only_if; apply read_only_ret.
Qed.

Lemma sqlUpdate_read_only (data : gmap string (JsValue num)) : read_only (sqlUpdate data).
Proof.
  unfold sqlUpdate.
  apply read_only_bind; [apply getTableName_read_only|intros ?].
  apply read_only_bind; [apply getAlias_read_only|intros ?].
  apply read_only_bind; [apply read_only_reads|intros cols].
  apply read_only_bind; [apply getPrimaryKey_read_only|intros ?].
  apply read_only_bind; [apply getPrimaryKey_read_only|intros ?].
  apply read_only_ret.
Qed.

Lemma sqlDelete_read_only (filter : FilterArg num) : read_only (sqlDelete filter).
Proof.
  unfold sqlDelete.
  apply read_only_bind; [apply getTableName_read_only|intros ?].
  apply read_only_bind; [apply getAlias_read_only|intros ?].
  apply read_only_bind; [apply whereClause_read_only|intros ?].
  apply read_only_ret.
Qed.

Lemma read_only_stateless {A : Type} (m : Method num A) : read_only m -> stateless m.
Proof.
  intros Hm this. rewrite (Hm this). repeat split; reflexivity.
Qed.

(** The two mutators do change the object: [read_only] is not vacuous. *)
Lemma addColumn_writes (col : Column num) (this : Schema num) :
  columns (after (addColumn (inl col)) this) = columns this ++ [col].
Proof. reflexivity. Qed.

Lemma addColumn_not_read_only (col : Column num) : ~ read_only (addColumn (inl col)).
Proof.
  intros Hro.
  specialize (Hro {| columns := []; constraints := []; tableName := EmptyString;
                     alias := EmptyString |}).
  discriminate Hro.
Qed.

Lemma addColumn_not_stateless (col : Column num) : ~ stateless (addColumn (inl col)).
Proof.
  intros Hs.
  destruct (Hs {| columns := []; constraints := []; tableName := EmptyString;
                  alias := EmptyString |}) as [[Hcols _] _].
  discriminate Hcols.
Qed.

(** C9. Every generation and projection method ([getAlias], [getTableName],
    [getColumnAliases], [getColumnNames], [getColumnFields], [getPrimaryKey],
    [aliasToColumnName], [sqlCreateTable], [sqlCreateEnumConstraints],
    [sqlCreateTableConstraints], [sqlTableDrop], [sqlSelect], [sqlInsert],
    [sqlUpdate], [sqlDelete]) leaves the columns, the constraints, the table
    name and the alias of the descriptor as they were, and returns the same
    result when it is called again with the same arguments. *)
Theorem methods_are_stateless :
  stateless getAlias
  /\ (forall useSql, stateless (getTableName useSql))
  /\ (forall includePrimary, stateless (getColumnAliases includePrimary))
  /\ (forall includePrimary, stateless (getColumnNames includePrimary))
  /\ (forall includePrimary useLabels, stateless (getColumnFields includePrimary useLabels))
  /\ (forall useAlias, stateless (getPrimaryKey useAlias))
  /\ (forall aliasColumn, stateless (aliasToColumnName aliasColumn))
  /\ stateless sqlCreateTable
  /\ stateless sqlCreateEnumConstraints
  /\ stateless sqlCreateTableConstraints
  /\ stateless sqlTableDrop
  /\ (forall useLabels filter, stateless (sqlSelect useLabels filter))
  /\ (forall data, stateless (sqlInsert data))
  /\ (forall data, stateless (sqlUpdate data))
  /\ (forall filter, stateless (sqlDelete filter)).
Proof.
  repeat split; intros; apply read_only_stateless;
    first
      [ apply getAlias_read_only | apply getTableName_read_only
      | apply getColumnAliases_read_only | apply getColumnNames_read_only
      | apply getColumnFields_read_only | apply getPrimaryKey_read_only
      | apply aliasToColumnName_read_only | apply sqlCreateTable_read_only
      | apply sqlCreateEnumConstraints_read_only | apply sqlCreateTableConstraints_read_only
      | apply sqlTableDrop_read_only | apply sqlSelect_read_only
      | apply sqlInsert_read_only | apply sqlUpdate_read_only | apply sqlDelete_read_only ].
Qed.

End ReadOnly.

(** ** The statements of [INSERT] and [UPDATE] *)

Section InsertUpdate.

Context {num : Type} `{JsNum num}.

Ltac run_reads :=
  cbv beta iota delta
    [result after bind ret reads getAlias getTableName
     this_alias this_columns this_tableName this_constraints fst snd].

Lemma truthy_true (x : option bool) : truthy x = true <-> x = Some true.
Proof. destruct x as [[]|]; cbn; split; congruence. Qed.

Lemma present_is_Some {A : Type} (x : option A) : present x = true <-> is_Some x.
Proof.
  destruct x; cbn; split; intros Hx; try reflexivity; try discriminate.
  - eexists. reflexivity.
  - destruct Hx as [? Hx]. discriminate Hx.
Qed.

Lemma present_None {A : Type} (x : option A) : present x = false <-> x = None.
Proof. destruct x; cbn; split; congruence. Qed.

(** What [sqlInsert] returns, with its loop written as a selection. *)
Lemma sqlInsert_result (this : Schema num) (data : gmap string (JsValue num)) :
  let a := alias this in
  let chosen :=
    List.filter (fun col => hasOwnProperty data (a +:+ "_" +:+ name col)) (columns this) in
  result (sqlInsert data) this =
  match chosen with
  | [] => EmptyString
  | _ :: _ =>
      "INSERT INTO " +:+ toLowerCase (tableName this) +:+ " AS " +:+ a +:+ " ("
      +:+ join ", " (map (fun col => a +:+ "." +:+ name col) chosen)
      +:+ ") VALUES ("
      +:+ join ", " (map (fun col => "$" +:+ a +:+ "_" +:+ name col) chosen) +:+ ")"
  end.
Proof.
  intros a chosen. unfold sqlInsert. run_reads.
  rewrite (fold_left_push2
             (fun col => hasOwnProperty data (alias this +:+ "_" +:+ name col))
             (fun col => alias this +:+ "." +:+ name col)
             (fun col => "$" +:+ alias this +:+ "_" +:+ name col)).
  cbn [app]. fold a. fold chosen.
  destruct chosen; reflexivity.
Qed.

(** C1. [sqlInsert(data)] returns the empty string if and only if no column
    has its alias-key [<alias>_<name>] among the keys of [data]; otherwise it
    returns [INSERT INTO <table> AS <alias> (<cols>) VALUES (<placeholders>)]
    where, for exactly the columns whose alias-key is a key of [data] and in
    declaration order, [<alias>.<name>] is in the column list and
    [$<alias>_<name>] is at the same position of the placeholder list. *)
Theorem sqlInsert_spec (this : Schema num) (data : gmap string (JsValue num))
    (chosen : list (Column num)) :
  let a := alias this in
  Selects (fun col => is_Some (data !! (a +:+ "_" +:+ name col))) (columns this) chosen ->
  (result (sqlInsert data) this = EmptyString <->
     forall col, In col (columns this) -> data !! (a +:+ "_" +:+ name col) = None)
  /\ ((exists col, In col (columns this) /\ is_Some (data !! (a +:+ "_" +:+ name col))) ->
      result (sqlInsert data) this =
      "INSERT INTO " +:+ toLowerCase (tableName this) +:+ " AS " +:+ a +:+ " ("
      +:+ join ", " (map (fun col => a +:+ "." +:+ name col) chosen)
      +:+ ") VALUES ("
      +:+ join ", " (map (fun col => "$" +:+ a +:+ "_" +:+ name col) chosen) +:+ ")").
Proof.
  intros a Hchosen.
  assert (Hfilter : chosen =
            List.filter (fun col => hasOwnProperty data (a +:+ "_" +:+ name col)) (columns this)).
  { eapply Selects_unique; [exact Hchosen|].
    apply Selects_filter. intros col. unfold hasOwnProperty.
    symmetry. apply present_is_Some. }
  pose proof (sqlInsert_result this data) as Hres. cbv zeta in Hres.
  fold a in Hres. rewrite <- Hfilter in Hres. rewrite Hres. clear Hres.
  split.
  - split.
    + intros Hempty col Hcol.
      destruct chosen as [|c chosen']; [|discriminate Hempty].
      apply Selects_nil_iff with (x := col) in Hchosen; [|exact Hcol].
      destruct (data !! (a +:+ "_" +:+ name col)) eqn:E; [|reflexivity].
      exfalso. apply Hchosen. eexists. reflexivity.
    + intros Hnone.
      destruct chosen as [|c chosen']; [reflexivity|]. exfalso.
      assert (Hin : In c (columns this)).
      { apply list_elem_of_In.
        eapply elem_of_sublist; [left | eapply Selects_sublist, Hchosen]. }
      apply Selects_Forall in Hchosen. inversion Hchosen as [|? ? [v Hv] _]; subst.
      rewrite (Hnone c Hin) in Hv. discriminate Hv.
  - intros (col & Hcol & Hkey).
    destruct chosen as [|c chosen']; [|reflexivity]. exfalso.
    apply Selects_nil_iff with (x := col) in Hchosen; [|exact Hcol].
    apply Hchosen, Hkey.
Qed.

Lemma getPrimaryKey_from_first (useAlias : bool) (cols : list (Column num))
    (pk : Column num) (this : Schema num) :
  FirstPrimary cols pk ->
  result (getPrimaryKey_from useAlias cols) this
  = Some (alias this +:+ (if useAlias then "_" else ".") +:+ name pk).
Proof.
  induction 1 as [pk rest Hpk|col rest pk Hcol _ IH]; cbn [getPrimaryKey_from].
  - apply truthy_true in Hpk. rewrite Hpk. reflexivity.
  - destruct (truthy (primaryKey col)) eqn:E; [|exact IH].
    apply truthy_true in E. contradiction.
Qed.

Lemma getPrimaryKey_from_none (useAlias : bool) (cols : list (Column num))
    (this : Schema num) :
  Forall (fun col => primaryKey col <> Some true) cols ->
  result (getPrimaryKey_from useAlias cols) this = None.
Proof.
  induction 1 as [|col rest Hcol _ IH]; cbn [getPrimaryKey_from]; [reflexivity|].
  destruct (truthy (primaryKey col)) eqn:E; [|exact IH].
  apply truthy_true in E. contradiction.
Qed.

Lemma getPrimaryKey_result (useAlias : bool) (this : Schema num) :
  result (getPrimaryKey useAlias) this
  = result (getPrimaryKey_from useAlias (columns this)) this.
Proof. reflexivity. Qed.

(** What [sqlUpdate] returns, with its loop written as a selection. *)
Lemma sqlUpdate_result (this : Schema num) (data : gmap string (JsValue num)) :
  let a := alias this in
  let chosen :=
    List.filter (fun col => hasOwnProperty data (name col) && negb (truthy (primaryKey col)))
                (columns this) in
  result (sqlUpdate data) this =
  "UPDATE " +:+ toLowerCase (tableName this) +:+ " AS " +:+ a +:+ " SET "
  +:+ join ", " (map (fun col => a +:+ "." +:+ name col +:+ " = $" +:+ a +:+ "_" +:+ name col)
                     chosen)
  +:+ " WHERE " +:+ interpolate (result (getPrimaryKey false) this)
  +:+ " = " +:+ "$" +:+ interpolate (result (getPrimaryKey true) this).
Proof.
  intros a chosen. unfold sqlUpdate.
  do 3 (rewrite result_bind by
          first [apply getTableName_read_only | apply getAlias_read_only | apply read_only_reads]).
  do 2 (rewrite result_bind by apply getPrimaryKey_read_only).
  run_reads.
  rewrite (fold_left_push
             (fun col => hasOwnProperty data (name col) && negb (truthy (primaryKey col)))
             (fun col => alias this +:+ "." +:+ name col +:+ " = $" +:+ alias this
                         +:+ "_" +:+ name col)).
  reflexivity.
Qed.

(** C2, amended. For every descriptor and every data object, [sqlUpdate(data)]
    puts [<alias>.<name> = $<alias>_<name>] in the SET list for exactly the
    columns that are not primary keys and whose bare name is a key of [data],
    in declaration order.  When the descriptor has a primary-key column, it
    appends [WHERE <alias>.<pk> = $<alias>_<pk>] for the first of them, whether
    or not the SET list is empty; when it has none, the clause it appends is
    [WHERE null = $null].  On table [mytable], alias [mt] and columns
    [id] (primary) and [name], [sqlUpdate({name: "x"})] is
    [UPDATE mytable AS mt SET mt.name = $mt_name WHERE mt.id = $mt_id]. *)
Theorem sqlUpdate_spec (this : Schema num) (data : gmap string (JsValue num))
    (chosen : list (Column num)) :
  let a := alias this in
  let statement :=
    "UPDATE " +:+ toLowerCase (tableName this) +:+ " AS " +:+ a +:+ " SET "
    +:+ join ", " (map (fun col => a +:+ "." +:+ name col +:+ " = $" +:+ a +:+ "_" +:+ name col)
                       chosen) in
  Selects (fun col => is_Some (data !! name col) /\ primaryKey col <> Some true)
          (columns this) chosen ->
  (forall pk, FirstPrimary (columns this) pk ->
     result (sqlUpdate data) this
     = statement +:+ " WHERE " +:+ a +:+ "." +:+ name pk +:+ " = $" +:+ a +:+ "_" +:+ name pk)
  /\ (Forall (fun col => primaryKey col <> Some true) (columns this) ->
      result (sqlUpdate data) this = statement +:+ " WHERE null = $null")
  /\ (forall id_ name_,
        columns this = [id_; name_] -> toLowerCase (tableName this) = "mytable" ->
        a = "mt" ->
        name id_ = "id" -> primaryKey id_ = Some true ->
        name name_ = "name" -> primaryKey name_ <> Some true ->
        is_Some (data !! "name") ->
        result (sqlUpdate data) this
        = "UPDATE mytable AS mt SET mt.name = $mt_name WHERE mt.id = $mt_id").
Proof.
  intros a statement Hchosen.
  assert (Hfilter : chosen =
            List.filter (fun col => hasOwnProperty data (name col)
                                    && negb (truthy (primaryKey col))) (columns this)).
  { eapply Selects_unique; [exact Hchosen|].
    apply Selects_filter. intros col. unfold hasOwnProperty.
    rewrite andb_true_iff, negb_true_iff, present_is_Some.
    rewrite <- not_true_iff_false, truthy_true. reflexivity. }
  pose proof (sqlUpdate_result this data) as Hres. cbv zeta in Hres.
  fold a in Hres. rewrite <- Hfilter in Hres. fold statement in Hres.
  assert (Hwith : forall pk, FirstPrimary (columns this) pk ->
            result (sqlUpdate data) this
            = statement +:+ " WHERE " +:+ a +:+ "." +:+ name pk
              +:+ " = $" +:+ a +:+ "_" +:+ name pk).
  { intros pk Hpk. rewrite Hres, !getPrimaryKey_result.
    rewrite !(getPrimaryKey_from_first _ _ pk) by exact Hpk.
    cbn [interpolate]. unfold statement. rewrite !append_assoc. reflexivity. }
  split; [exact Hwith|]. split.
  - intros Hnone. rewrite Hres, !getPrimaryKey_result.
    rewrite !getPrimaryKey_from_none by exact Hnone.
    cbn [interpolate]. unfold statement. rewrite !append_assoc. reflexivity.
  - intros id_ name_ Hcols Htable Halias Hid Hidpk Hname Hnamepk Hkey.
    rewrite (Hwith id_) by (rewrite Hcols; constructor; exact Hidpk).
    unfold statement. rewrite Hfilter, Hcols. cbn [List.filter].
    rewrite Hname, Hid. unfold hasOwnProperty.
    apply truthy_true in Hidpk. rewrite Hidpk, andb_false_r.
    apply present_is_Some in Hkey. rewrite Hkey. cbn [andb].
    destruct (truthy (primaryKey name_)) eqn:E;
      [apply truthy_true in E; contradiction|].
    cbn [negb map join]. rewrite Hname, Htable, Halias. reflexivity.
Qed.

End InsertUpdate.

(** ** The projections of the column list *)

Section Projections.

Context {num : Type} `{JsNum num}.

Lemma keep_true (includePrimary : bool) (col : Column num) :
  keep includePrimary col = true
  <-> ~ (includePrimary = false /\ primaryKey col = Some true).
Proof.
  unfold keep. rewrite orb_true_iff, negb_true_iff, <- not_true_iff_false, truthy_true.
  destruct includePrimary; split; intros Hk.
  - intros [Hf _]. discriminate Hf.
  - left. reflexivity.
  - intros [_ Hpk]. destruct Hk as [Hk|Hk]; [discriminate Hk | contradiction].
  - right. intros Hpk. apply Hk. split; [reflexivity | exact Hpk].
Qed.

Lemma filter_keep_all (cols : list (Column num)) : List.filter (keep true) cols = cols.
Proof. induction cols as [|col cols IH]; cbn; [|rewrite IH]; reflexivity. Qed.

Lemma lookup_map {A B : Type} (f : A -> B) (l : list A) (i : nat) (x : A) :
  l !! i = Some x -> map f l !! i = Some (f x).
Proof.
  revert i. induction l as [|y l IH]; intros [|i] Hi; try discriminate Hi.
  - injection Hi as ->. reflexivity.
  - cbn. apply IH. exact Hi.
Qed.

Lemma getColumnFields_result (includePrimary useLabels : bool) (this : Schema num) :
  result (getColumnFields includePrimary useLabels) this
  = map (fun col => result (columnField (alias this) useLabels col) this)
        (List.filter (keep includePrimary) (columns this)).
Proof.
  unfold getColumnFields.
  rewrite result_bind by apply getAlias_read_only.
  rewrite result_bind by apply read_only_reads.
  apply result_mapM. intros col. apply columnField_read_only.
Qed.

Lemma columnField_plain (a : string) (useLabels : bool) (col : Column num)
    (this : Schema num) :
  useLabels = false \/ enumValues col = None ->
  result (columnField a useLabels col) this
  = a +:+ "." +:+ name col +:+ " AS " +:+ dq +:+ a +:+ "_" +:+ name col +:+ dq.
Proof.
  intros Hplain. unfold columnField.
  destruct Hplain as [->| ->]; [|rewrite andb_false_r]; reflexivity.
Qed.

Lemma aliasToColumnName_result (aliasColumn : string) (this : Schema num) :
  result (aliasToColumnName aliasColumn) this
  = if startsWith aliasColumn (alias this +:+ "_")
    then substring (String.length (alias this +:+ "_")) aliasColumn
    else aliasColumn.
Proof.
  unfold aliasToColumnName, result, bind, getAlias, this_alias, reads. cbn [fst].
  destruct (startsWith aliasColumn (alias this +:+ "_")); reflexivity.
Qed.

Lemma aliasToColumnName_strips (rest : string) (this : Schema num) :
  result (aliasToColumnName (alias this +:+ "_" +:+ rest)) this = rest.
Proof.
  rewrite aliasToColumnName_result, <- append_assoc, startsWith_app.
  apply substring_app.
Qed.

(** C4. [getColumnAliases], [getColumnNames] and [getColumnFields] each give
    one entry per column in declaration order, omitting exactly the columns
    marked [primaryKey = true] when [includePrimary] is false; the entries are
    [<alias>_<name>], [<alias>.<name>] and, for a column without enumerated
    values or when [useLabels] is false, [<alias>.<name> AS "<alias>_<name>"]. *)
Theorem projections_spec (this : Schema num) (includePrimary useLabels : bool)
    (kept : list (Column num)) :
  let a := alias this in
  Selects (fun col => ~ (includePrimary = false /\ primaryKey col = Some true))
          (columns this) kept ->
  result (getColumnAliases includePrimary) this = map (fun col => a +:+ "_" +:+ name col) kept
  /\ result (getColumnNames includePrimary) this = map (fun col => a +:+ "." +:+ name col) kept
  /\ length (result (getColumnFields includePrimary useLabels) this) = length kept
  /\ (forall i col,
        kept !! i = Some col -> useLabels = false \/ enumValues col = None ->
        result (getColumnFields includePrimary useLabels) this !! i
        = Some (a +:+ "." +:+ name col +:+ " AS " +:+ dq +:+ a +:+ "_" +:+ name col +:+ dq)).
Proof.
  intros a Hkept.
  assert (Hfilter : kept = List.filter (keep includePrimary) (columns this)).
  { eapply Selects_unique; [exact Hkept|].
    apply Selects_filter. intros col. symmetry. apply keep_true. }
  rewrite getColumnFields_result, <- Hfilter.
  split; [|split; [|split]].
  - rewrite Hfilter. reflexivity.
  - rewrite Hfilter. reflexivity.
  - apply length_map.
  - intros i col Hi Hplain.
    rewrite (lookup_map _ _ _ _ Hi), columnField_plain by exact Hplain. reflexivity.
Qed.

(** C5, amended. When [includePrimary] is false, a column with
    [primaryKey = true] is absent from the output of [getColumnFields],
    [getColumnNames] and [getColumnAliases]: every entry of the three outputs
    is the entry of a column that is not a primary key, and the entries
    [<alias>_<name>] and [<alias>.<name>] of a primary-key column do not occur
    when no other column has its name.  The columns with [primaryKey = false]
    are the ones that stay. *)
Theorem primary_key_absent (this : Schema num) (useLabels : bool) :
  let a := alias this in
  (forall entry, In entry (result (getColumnAliases false) this) ->
     exists col, In col (columns this) /\ primaryKey col <> Some true
                 /\ entry = a +:+ "_" +:+ name col)
  /\ (forall entry, In entry (result (getColumnNames false) this) ->
     exists col, In col (columns this) /\ primaryKey col <> Some true
                 /\ entry = a +:+ "." +:+ name col)
  /\ (forall entry, In entry (result (getColumnFields false useLabels) this) ->
     exists col, In col (columns this) /\ primaryKey col <> Some true
                 /\ entry = result (columnField a useLabels col) this)
  /\ (forall pk, In pk (columns this) -> primaryKey pk = Some true ->
        (forall col, In col (columns this) -> name col = name pk -> col = pk) ->
        ~ In (a +:+ "_" +:+ name pk) (result (getColumnAliases false) this)
        /\ ~ In (a +:+ "." +:+ name pk) (result (getColumnNames false) this))
  /\ (forall col, In col (columns this) -> primaryKey col = Some false ->
        In (a +:+ "_" +:+ name col) (result (getColumnAliases false) this)
        /\ In (a +:+ "." +:+ name col) (result (getColumnNames false) this)
        /\ In (result (columnField a useLabels col) this)
              (result (getColumnFields false useLabels) this)).
Proof.
  intros a.
  assert (Hkept : forall col,
            In col (List.filter (keep false) (columns this))
            <-> In col (columns this) /\ primaryKey col <> Some true).
  { intros col. rewrite filter_In, keep_true. split; intros [Hin Hk]; split; try exact Hin.
    - intros Hpk. apply Hk. split; [reflexivity | exact Hpk].
    - intros [_ Hpk]. contradiction. }
  assert (Hfrom : forall (f : Column num -> string) entry,
            In entry (map f (List.filter (keep false) (columns this))) ->
            exists col, In col (columns this) /\ primaryKey col <> Some true /\ entry = f col).
  { intros f entry Hentry. apply in_map_iff in Hentry as (col & <- & Hcol).
    apply Hkept in Hcol as [Hin Hpk]. exists col. auto. }
  rewrite getColumnFields_result.
  split; [|split; [|split; [|split]]].
  - apply Hfrom.
  - apply Hfrom.
  - apply Hfrom.
  - intros pk Hpk Hprimary Hname. split; intros Hentry;
      apply Hfrom in Hentry as (col & Hcol & Hnot & Heq);
      apply (inj (String.app a)) in Heq; injection Heq as Heq;
      symmetry in Heq; apply Hname in Heq; [|exact Hcol| |exact Hcol];
      subst col; contradiction.
  - intros col Hcol Hpk.
    assert (Hin : In col (List.filter (keep false) (columns this))).
    { apply Hkept. split; [exact Hcol | congruence]. }
    repeat split.
    + apply (in_map (fun col => a +:+ "_" +:+ name col)), Hin.
    + apply (in_map (fun col => a +:+ "." +:+ name col)), Hin.
    + apply (in_map (fun col => result (columnField a useLabels col) this)), Hin.
Qed.

(** C8. [aliasToColumnName(getColumnAliases(true)[i])] is the bare name of the
    [i]-th column; [aliasToColumnName] strips the prefix [<alias>_] when its
    argument has it and returns its argument unchanged otherwise. *)
Theorem alias_round_trip (this : Schema num) :
  (forall i col,
     columns this !! i = Some col ->
     exists entry,
       result (getColumnAliases true) this !! i = Some entry
       /\ result (aliasToColumnName entry) this = name col)
  /\ (forall rest, result (aliasToColumnName (alias this +:+ "_" +:+ rest)) this = rest)
  /\ (forall aliasColumn,
        ~ (exists rest, aliasColumn = alias this +:+ "_" +:+ rest) ->
        result (aliasToColumnName aliasColumn) this = aliasColumn).
Proof.
  split; [|split].
  - intros i col Hi. exists (alias this +:+ "_" +:+ name col). split.
    + change (result (getColumnAliases true) this)
        with (map (fun col => alias this +:+ "_" +:+ name col)
                  (List.filter (keep true) (columns this))).
      rewrite filter_keep_all.
      apply (lookup_map (fun col => alias this +:+ "_" +:+ name col) _ _ _ Hi).
    + apply aliasToColumnName_strips.
  - intros rest. apply aliasToColumnName_strips.
  - intros aliasColumn Hno. rewrite aliasToColumnName_result.
    destruct (startsWith aliasColumn (alias this +:+ "_")) eqn:E; [|reflexivity].
    exfalso. apply Hno. apply startsWith_inv in E as [rest ->].
    exists rest. apply append_assoc.
Qed.

End Projections.

(** ** Table creation and enumerated values *)

Section Definitions.

Context {num : Type} `{JsNum num}.

Lemma defaultLiteral_spec (d : DefaultValue num) : DefaultLiteral d (defaultLiteral d).
Proof.
  destruct d as [s|n|[]]; cbn; constructor. apply Quoted_replaceAll.
Qed.

Lemma columnDefinition_spec (col : Column num) : ColumnDefinition col (columnDefinition col).
Proof.
  unfold columnDefinition.
  destruct (defaultValue col) as [d|] eqn:Hd.
  - replace ((_ : string) +:+ " DEFAULT " +:+ defaultLiteral d)
      with (name col +:+ " " +:+ or_else (sqlType col) "text"
            +:+ when_set (primaryKey col) " PRIMARY KEY"
            +:+ when_set (nullable col) " NULL"
            +:+ when_set (autoIncrement col) " GENERATED ALWAYS AS IDENTITY"
            +:+ " DEFAULT " +:+ defaultLiteral d).
    + apply ColumnDefinition_default with (d := d); [exact Hd | apply defaultLiteral_spec].
    + unfold when_set.
      destruct (truthy (primaryKey col)), (truthy (nullable col)),
        (truthy (autoIncrement col));
        rewrite ?append_assoc, ?append_empty_l; reflexivity.
  - replace (if truthy (autoIncrement col) then _ else _)
      with (name col +:+ " " +:+ or_else (sqlType col) "text"
            +:+ when_set (primaryKey col) " PRIMARY KEY"
            +:+ when_set (nullable col) " NULL"
            +:+ when_set (autoIncrement col) " GENERATED ALWAYS AS IDENTITY").
    + apply ColumnDefinition_plain. exact Hd.
    + unfold when_set.
      destruct (truthy (primaryKey col)), (truthy (nullable col)),
        (truthy (autoIncrement col));
        rewrite ?append_assoc, ?append_empty_l, ?append_empty_r; reflexivity.
Qed.

Lemma Forall2_map_spec {A B : Type} (R : A -> B -> Prop) (f : A -> B) (l : list A) :
  (forall x, R x (f x)) -> Forall2 R l (map f l).
Proof. intros HR. induction l; cbn; constructor; auto. Qed.

(** C7. [sqlCreateTable()] returns
    [CREATE TABLE IF NOT EXISTS <lowercased table> (<col defs>);] where each
    column definition is [<name> <sqlType or "text">] followed, in this order,
    by [ PRIMARY KEY] if [primaryKey], [ NULL] if [nullable],
    [ GENERATED ALWAYS AS IDENTITY] if [autoIncrement] and [ DEFAULT <literal>]
    if [defaultValue] is set; a string default is between single quotes with
    its single quotes doubled (the default [O'Brien] gives ['O''Brien']), a
    numeric or boolean default is its literal form. *)
Theorem sqlCreateTable_spec (this : Schema num) :
  (exists definitions,
     Forall2 ColumnDefinition (columns this) definitions
     /\ result sqlCreateTable this
        = "CREATE TABLE IF NOT EXISTS " +:+ toLowerCase (tableName this)
          +:+ " (" +:+ join ", " definitions +:+ ");")
  /\ defaultLiteral (num:=num) (DefaultString "O'Brien") = "'O''Brien'"
  /\ (forall n : num, defaultLiteral (DefaultNumber n) = Number_toString n)
  /\ defaultLiteral (num:=num) (DefaultBoolean true) = "true"
  /\ defaultLiteral (num:=num) (DefaultBoolean false) = "false".
Proof.
  split; [|repeat split].
  exists (map columnDefinition (columns this)). split.
  - apply Forall2_map_spec, columnDefinition_spec.
  - reflexivity.
Qed.

Lemma enumLiteral_spec (v : EnumScalar num) : EnumLiteral v (enumLiteral v).
Proof. destruct v as [s|n]; cbn; constructor. apply Quoted_replaceAll. Qed.

Lemma whenThen_spec (colRef : string) (ev : EnumValue num) :
  WhenThen colRef ev (whenThen colRef ev).
Proof.
  unfold whenThen. constructor; [apply enumLiteral_spec|].
  destruct (ev_label ev) as [[|c l]|] eqn:Hl; cbn [nonempty].
  - apply EnumLabel_fallback; [right; exact Hl | apply replaceAll_Replaced].
  - apply EnumLabel_given with (l := String c l);
      [exact Hl | discriminate | apply replaceAll_Replaced].
  - apply EnumLabel_fallback; [left; exact Hl | apply replaceAll_Replaced].
Qed.

Lemma enumExpression_result (col : Column num) (evs : list (EnumValue num))
    (this : Schema num) :
  enumValues col = Some evs ->
  result (enumExpression col) this
  = Some ("(CASE " +:+ join " " (map (whenThen (alias this +:+ "." +:+ name col)) evs)
          +:+ " ELSE 'Value " +:+ dq +:+ "' || " +:+ (alias this +:+ "." +:+ name col)
          +:+ " || '" +:+ dq +:+ "' END)").
Proof. intros Hevs. unfold enumExpression. rewrite Hevs. reflexivity. Qed.

Lemma columnField_labelled (col : Column num) (evs : list (EnumValue num))
    (this : Schema num) :
  enumValues col = Some evs ->
  result (columnField (alias this) true col) this
  = "(CASE " +:+ join " " (map (whenThen (alias this +:+ "." +:+ name col)) evs)
    +:+ " ELSE 'Value " +:+ dq +:+ "' || " +:+ alias this +:+ "." +:+ name col
    +:+ " || '" +:+ dq +:+ "' END) AS " +:+ dq +:+ alias this +:+ "_" +:+ name col
    +:+ "_label" +:+ dq.
Proof.
  intros Hevs. unfold columnField. rewrite Hevs. cbn [present andb].
  rewrite result_bind by apply enumExpression_read_only.
  rewrite (enumExpression_result col evs this Hevs).
  unfold result, ret. cbn [fst interpolate].
  rewrite !append_assoc. reflexivity.
Qed.

Lemma sqlSelect_result (useLabels : bool) (filter : FilterArg num) (this : Schema num) :
  result (sqlSelect useLabels filter) this
  = "SELECT " +:+ join ", " (result (getColumnFields true useLabels) this)
    +:+ " FROM " +:+ toLowerCase (tableName this) +:+ " AS " +:+ alias this
    +:+ result (whereClause filter) this.
Proof.
  unfold sqlSelect.
  rewrite result_bind by apply getColumnFields_read_only.
  rewrite result_bind by apply getTableName_read_only.
  rewrite result_bind by apply getAlias_read_only.
  rewrite result_bind by apply whereClause_read_only.
  reflexivity.
Qed.

(** C6, amended. For a column with enumerated values and [useLabels = true],
    [getColumnFields] gives the field
    [(CASE <arms> ELSE 'Value "' || <alias>.<name> || '"' END) AS "<alias>_<name>_label"]
    with one arm [WHEN <alias>.<name> = <literal> THEN '<label>'] per value,
    in order: the label is the given one with its single quotes doubled, or
    [Value "<value>"] with the double quotes of the value escaped by a
    backslash when no label is given (or an empty one).  The CASE expression
    stands between parentheses, so [END] is followed by [) AS], not by [ AS].
    With alias [mt] and a column [status] of values [0] ([Off]) and [1]
    ([On]), [sqlSelect(true)] contains the field
    [(CASE WHEN mt.status = 0 THEN 'Off' WHEN mt.status = 1 THEN 'On' ELSE 'Value "' || mt.status || '"' END) AS "mt_status_label"]. *)
Theorem enum_field_spec (this : Schema num) (col : Column num) (evs : list (EnumValue num)) :
  let a := alias this in
  let colRef := a +:+ "." +:+ name col in
  enumValues col = Some evs ->
  In col (columns this) ->
  (exists arms field,
     Forall2 (WhenThen colRef) evs arms
     /\ field = "(CASE " +:+ join " " arms +:+ " ELSE 'Value " +:+ dq +:+ "' || " +:+ colRef
                +:+ " || '" +:+ dq +:+ "' END) AS " +:+ dq +:+ a +:+ "_" +:+ name col
                +:+ "_label" +:+ dq
     /\ result (columnField a true col) this = field
     /\ In field (result (getColumnFields true true) this)
     /\ forall filter, Contains (result (sqlSelect true filter) this) field)
  /\ (forall off on,
        a = "mt" -> name col = "status" ->
        evs = [ {| ev_value := EnumNumber off; ev_label := Some "Off" |};
                {| ev_value := EnumNumber on; ev_label := Some "On" |} ] ->
        Number_toString off = "0" -> Number_toString on = "1" ->
        let field :=
          "(CASE WHEN mt.status = 0 THEN 'Off' WHEN mt.status = 1 THEN 'On' ELSE 'Value "
          +:+ dq +:+ "' || mt.status || '" +:+ dq +:+ "' END) AS " +:+ dq
          +:+ "mt_status_label" +:+ dq in
        In field (result (getColumnFields true true) this)
        /\ forall filter, Contains (result (sqlSelect true filter) this) field).
Proof.
  intros a colRef Hevs Hcol.
  assert (Hin : In (result (columnField a true col) this)
                   (result (getColumnFields true true) this)).
  { rewrite getColumnFields_result, filter_keep_all.
    apply (in_map (fun col => result (columnField (alias this) true col) this)), Hcol. }
  assert (Hselect : forall filter,
            Contains (result (sqlSelect true filter) this)
                     (result (columnField a true col) this)).
  { intros filter. rewrite sqlSelect_result.
    apply Contains_app_r, Contains_app_l, Contains_join, Hin. }
  split.
  - exists (map (whenThen colRef) evs), (result (columnField a true col) this).
    split; [apply Forall2_map_spec, whenThen_spec|].
    split.
    { unfold a. rewrite (columnField_labelled col evs this Hevs).
      unfold colRef, a. rewrite !append_assoc. reflexivity. }
    split; [reflexivity|]. split; [exact Hin | exact Hselect].
  - intros off on Ha Hname -> Hoff Hon field.
    assert (Hfield : result (columnField a true col) this = field).
    { unfold a. rewrite (columnField_labelled col _ this Hevs).
      cbn [map]. unfold whenThen. cbn [ev_value ev_label enumLiteral nonempty].
      rewrite Hoff, Hon, Hname. fold a. rewrite Ha. reflexivity. }
    rewrite <- Hfield. split; [exact Hin | exact Hselect].
Qed.

End Definitions.

(** ** The where-clause *)

Section Where.

Context {num : Type} `{JsNum num}.

Lemma upper_char_eqb (x y : ascii) :
  (y = "I" \/ y = "S" \/ y = " " \/ y = "N" \/ y = "O" \/ y = "T")%char ->
  Ascii.eqb (upper_char x) y = Ascii.eqb (lower_char x) (lower_char y).
Proof.
  intros [->|[->|[->|[->|[->| ->]]]]];
    destruct x as [[] [] [] [] [] [] [] []]; reflexivity.
Qed.

Lemma toUpperCase_is_not (op : string) :
  String.eqb (toUpperCase op) "IS NOT" = equal_ignoring_case op "IS NOT".
Proof.
  unfold toUpperCase.
  do 7 (destruct op as [|? op]; [cbn; rewrite ?upper_char_eqb by tauto; reflexivity|]).
  cbn. rewrite !upper_char_eqb by tauto. reflexivity.
Qed.

Lemma or_else_is_not (f : Filter num) :
  String.eqb (toUpperCase (or_else (operator f) "=")) "IS NOT" = asks_is_not f.
Proof.
  unfold asks_is_not. destruct (operator f) as [[|c op]|]; [reflexivity| |reflexivity].
  apply toUpperCase_is_not.
Qed.

(** The column a filter names. *)
Lemma condition_result (a : string) (f : Filter num) (this : Schema num) :
  let column :=
    match target f with
    | ByColumn c => c
    | ByAlias x => result (aliasToColumnName x) this
    end in
  result (condition a f) this =
  match value f with
  | ValueNull =>
      a +:+ "." +:+ column +:+ (if asks_is_not f then " IS NOT NULL" else " IS NULL")
  | ValueString s =>
      a +:+ "." +:+ column +:+ " " +:+ or_else (operator f) "=" +:+ " "
      +:+ "'" +:+ replaceAll "'" "''" s +:+ "'"
  | ValueNumber n =>
      a +:+ "." +:+ column +:+ " " +:+ or_else (operator f) "=" +:+ " " +:+ Number_toString n
  | ValueBoolean b =>
      a +:+ "." +:+ column +:+ " " +:+ or_else (operator f) "=" +:+ " "
      +:+ (if b then "TRUE" else "FALSE")
  end.
Proof.
  intros column. unfold condition.
  rewrite result_bind.
  2:{ destruct (target f); [apply read_only_ret|].
      apply read_only_bind; [apply aliasToColumnName_read_only|intros ?; apply read_only_ret]. }
  assert (Hcol : result
            match target f with
            | ByColumn c => ret (a +:+ "." +:+ c)
            | ByAlias x =>
                bind (aliasToColumnName x) (fun colName => ret (a +:+ "." +:+ colName))
            end this = a +:+ "." +:+ column).
  { unfold column. destruct (target f); [reflexivity|].
    rewrite result_bind by apply aliasToColumnName_read_only. reflexivity. }
  rewrite Hcol.
  destruct (value f); unfold result, ret; cbn [fst]; rewrite ?append_assoc; try reflexivity.
  rewrite or_else_is_not. destruct (asks_is_not f); reflexivity.
Qed.

Lemma whereClause_list (fs : list (Filter num)) (this : Schema num) :
  result (whereClause (FilterList fs)) this
  = " WHERE " +:+ join " AND " (map (fun f => result (condition (alias this) f) this) fs).
Proof.
  cbv beta iota delta [whereClause].
  rewrite result_bind by apply getAlias_read_only.
  rewrite result_bind by (apply read_only_mapM; intros ?; apply condition_read_only).
  rewrite result_mapM by (intros ?; apply condition_read_only).
  reflexivity.
Qed.

Lemma whereClause_one (f : Filter num) (this : Schema num) :
  result (whereClause (OneFilter f)) this
  = " WHERE " +:+ result (condition (alias this) f) this.
Proof.
  cbv beta iota delta [whereClause].
  rewrite result_bind by apply getAlias_read_only.
  rewrite result_bind by (apply read_only_mapM; intros ?; apply condition_read_only).
  rewrite result_mapM by (intros ?; apply condition_read_only).
  reflexivity.
Qed.

Lemma sqlDelete_result (filter : FilterArg num) (this : Schema num) :
  result (sqlDelete filter) this
  = "DELETE FROM " +:+ toLowerCase (tableName this) +:+ " AS " +:+ alias this
    +:+ result (whereClause filter) this.
Proof.
  unfold sqlDelete.
  rewrite result_bind by apply getTableName_read_only.
  rewrite result_bind by apply getAlias_read_only.
  rewrite result_bind by apply whereClause_read_only.
  reflexivity.
Qed.

Lemma FilterLiteral_spec (f : Filter num) :
  value f <> ValueNull ->
  exists literal,
    FilterLiteral (value f) literal
    /\ literal = match value f with
                 | ValueString s => "'" +:+ replaceAll "'" "''" s +:+ "'"
                 | ValueNumber n => Number_toString n
                 | ValueBoolean b => if b then "TRUE" else "FALSE"
                 | ValueNull => EmptyString
                 end.
Proof.
  intros Hv. destruct (value f) as [s|n|[]|]; try contradiction; eexists; split;
    try reflexivity; constructor. apply Quoted_replaceAll.
Qed.

(** C3. The where-clause of [sqlSelect] and [sqlDelete] is the empty string
    when no filter is given; with filters it is [ WHERE ] followed by the
    conditions joined with [ AND ].  A filter whose value is null gives
    [<col> IS NULL], or [<col> IS NOT NULL] exactly when its operator is
    [IS NOT] in any case of the letters, whatever other operator it asks for;
    a string value is between single quotes with its single quotes doubled, a
    number is written as it is, a boolean is [TRUE] or [FALSE].
    [sqlDelete({alias: "mt_id", value: null})] ends in [ WHERE mt.id IS NULL]. *)
Theorem whereClause_spec (this : Schema num) :
  let a := alias this in
  let column (f : Filter num) :=
    match target f with
    | ByColumn c => c
    | ByAlias x => result (aliasToColumnName x) this
    end in
  result (whereClause NoFilter) this = EmptyString
  /\ (forall useLabels filter,
        result (sqlSelect useLabels filter) this
        = "SELECT " +:+ join ", " (result (getColumnFields true useLabels) this)
          +:+ " FROM " +:+ toLowerCase (tableName this) +:+ " AS " +:+ a
          +:+ result (whereClause filter) this)
  /\ (forall filter,
        result (sqlDelete filter) this
        = "DELETE FROM " +:+ toLowerCase (tableName this) +:+ " AS " +:+ a
          +:+ result (whereClause filter) this)
  /\ (forall fs,
        result (whereClause (FilterList fs)) this
        = " WHERE " +:+ join " AND " (map (fun f => result (condition a f) this) fs))
  /\ (forall f,
        result (whereClause (OneFilter f)) this = " WHERE " +:+ result (condition a f) this)
  /\ (forall f,
        value f = ValueNull ->
        result (condition a f) this
        = a +:+ "." +:+ column f +:+ (if asks_is_not f then " IS NOT NULL" else " IS NULL"))
  /\ (forall f,
        value f <> ValueNull ->
        exists literal,
          FilterLiteral (value f) literal
          /\ result (condition a f) this
             = a +:+ "." +:+ column f +:+ " " +:+ or_else (operator f) "=" +:+ " " +:+ literal)
  /\ (a = "mt" ->
      EndsIn (result (sqlDelete (OneFilter {| target := ByAlias "mt_id"; operator := None;
                                              value := ValueNull |})) this)
             " WHERE mt.id IS NULL").
Proof.
  intros a column.
  split; [reflexivity|].
  split; [intros; apply sqlSelect_result|].
  split; [intros; apply sqlDelete_result|].
  split; [intros; apply whereClause_list|].
  split; [intros; apply whereClause_one|].
  split; [|split].
  - intros f Hnull. pose proof (condition_result a f this) as Hc. cbv zeta in Hc.
    rewrite Hnull in Hc. exact Hc.
  - intros f Hv. destruct (FilterLiteral_spec f Hv) as (literal & Hlit & Heq).
    exists literal. split; [exact Hlit|].
    pose proof (condition_result a f this) as Hc. cbv zeta in Hc.
    rewrite Hc, Heq. destruct (value f); try reflexivity. contradiction.
  - intros Ha.
    exists ("DELETE FROM " +:+ toLowerCase (tableName this) +:+ " AS " +:+ a).
    rewrite sqlDelete_result, whereClause_one.
    pose proof (condition_result (alias this)
                  {| target := ByAlias "mt_id"; operator := None; value := ValueNull |}
                  this) as Hc.
    cbv zeta in Hc. cbn [target value] in Hc. rewrite Hc.
    unfold asks_is_not. cbn [operator].
    replace (result (aliasToColumnName "mt_id") this) with "id".
    + fold a. rewrite Ha. rewrite !append_assoc. reflexivity.
    + change "mt_id" with ("mt" +:+ "_" +:+ "id"). rewrite <- Ha.
      symmetry. apply aliasToColumnName_strips.
Qed.

(** C10. An empty list of filters is not an omitted filter: [sqlSelect] and
    [sqlDelete] then end in [ WHERE ] with no condition behind it, whereas
    with the filter left out they have no [WHERE] at all. *)
Theorem empty_filter_list (this : Schema num) (useLabels : bool) :
  let a := alias this in
  result (whereClause (FilterList [])) this = " WHERE "
  /\ result (whereClause NoFilter) this = EmptyString
  /\ result (sqlDelete NoFilter) this
     = "DELETE FROM " +:+ toLowerCase (tableName this) +:+ " AS " +:+ a
  /\ result (sqlDelete (FilterList [])) this
     = "DELETE FROM " +:+ toLowerCase (tableName this) +:+ " AS " +:+ a +:+ " WHERE "
  /\ result (sqlSelect useLabels NoFilter) this
     = "SELECT " +:+ join ", " (result (getColumnFields true useLabels) this)
       +:+ " FROM " +:+ toLowerCase (tableName this) +:+ " AS " +:+ a
  /\ result (sqlSelect useLabels (FilterList [])) this
     = "SELECT " +:+ join ", " (result (getColumnFields true useLabels) this)
       +:+ " FROM " +:+ toLowerCase (tableName this) +:+ " AS " +:+ a +:+ " WHERE "
  /\ EndsIn (result (sqlDelete (FilterList [])) this) " WHERE "
  /\ EndsIn (result (sqlSelect useLabels (FilterList [])) this) " WHERE "
  /\ result (sqlDelete (FilterList [])) this <> result (sqlDelete NoFilter) this
  /\ result (sqlSelect useLabels (FilterList [])) this
     <> result (sqlSelect useLabels NoFilter) this.
Proof.
  intros a.
  assert (Hne : forall s : string, s +:+ " WHERE " <> s).
  { intros s. induction s as [|c s IH]; [discriminate|].
    rewrite append_cons. intros Heq. injection Heq as Heq. contradiction. }
  rewrite !sqlDelete_result, !sqlSelect_result, whereClause_list.
  change (result (whereClause NoFilter) this) with EmptyString.
  cbn [map join]. rewrite !append_empty_r. fold a.
  repeat split.
  - eexists. rewrite <- !append_assoc. reflexivity.
  - eexists. rewrite <- !append_assoc. reflexivity.
  - rewrite <- !append_assoc. apply Hne.
  - rewrite <- !append_assoc. apply Hne.
Qed.

End Where.

(** ** The statements on the descriptors of the examples *)

Lemma not_Contains (hay needle : string) : includes hay needle = false -> ~ Contains hay needle.
Proof.
  intros Hno Hyes. apply includes_Contains in Hyes. rewrite Hyes in Hno. discriminate Hno.
Qed.

(** [sqlInsert({mt_name: "x"})] on alias [mt] and columns [id], [name]. *)
Lemma sqlInsert_spec_witness :
  Selects (fun col => is_Some (({[ "mt_name" := JsString "x" ]} : gmap string (JsValue Z))
                               !! (alias Example.mytable +:+ "_" +:+ name col)))
          (columns Example.mytable) [Example.name_]
  /\ result (sqlInsert {[ "mt_name" := JsString "x" ]}) Example.mytable
     = "INSERT INTO mytable AS mt (mt.name) VALUES ($mt_name)".
Proof.
  assert (Hsel : Selects
            (fun col => is_Some (({[ "mt_name" := JsString "x" ]} : gmap string (JsValue Z))
                                 !! (alias Example.mytable +:+ "_" +:+ name col)))
            (columns Example.mytable) [Example.name_]).
  { apply Selects_omit; [intros [v Hv]; vm_compute in Hv; discriminate Hv|].
    apply Selects_keep; [exists (JsString "x"); vm_compute; reflexivity|].
    apply Selects_nil. }
  split; [exact Hsel|].
  rewrite (proj2 (sqlInsert_spec Example.mytable _ [Example.name_] Hsel)).
  - reflexivity.
  - exists Example.name_. split; [right; left; reflexivity|].
    exists (JsString "x"). vm_compute. reflexivity.
Defined.

(** [sqlUpdate({name: "x"})] on table [mytable], alias [mt] and columns [id],
    [name]. *)
Lemma sqlUpdate_spec_witness :
  Selects (fun col => is_Some (({[ "name" := JsString "x" ]} : gmap string (JsValue Z))
                               !! name col)
                      /\ primaryKey col <> Some true)
          (columns Example.mytable) [Example.name_]
  /\ FirstPrimary (columns Example.mytable) Example.id
  /\ result (sqlUpdate {[ "name" := JsString "x" ]}) Example.mytable
     = "UPDATE mytable AS mt SET mt.name = $mt_name WHERE mt.id = $mt_id".
Proof.
  assert (Hsel : Selects
            (fun col => is_Some (({[ "name" := JsString "x" ]} : gmap string (JsValue Z))
                                 !! name col)
                        /\ primaryKey col <> Some true)
            (columns Example.mytable) [Example.name_]).
  { apply Selects_omit; [intros [_ Hpk]; apply Hpk; reflexivity|].
    apply Selects_keep; [|apply Selects_nil].
    split; [exists (JsString "x"); vm_compute; reflexivity | discriminate]. }
  assert (Hpk : FirstPrimary (columns Example.mytable) Example.id).
  { apply FirstPrimary_here. reflexivity. }
  split; [exact Hsel|]. split; [exact Hpk|].
  rewrite (proj1 (sqlUpdate_spec Example.mytable _ [Example.name_] Hsel) Example.id Hpk).
  reflexivity.
Defined.

(** C2 as stated fails on a descriptor without a primary key: the clause is
    [WHERE null = $null], built from no column. *)
Lemma sqlUpdate_without_primary_key :
  result (sqlUpdate {[ "name" := JsString "x" ]}) Example.keyless
  = "UPDATE mytable AS mt SET mt.name = $mt_name WHERE null = $null"
  /\ ~ (exists pk : Column Z,
          result (sqlUpdate {[ "name" := JsString "x" ]}) Example.keyless
          = "UPDATE mytable AS mt SET mt.name = $mt_name WHERE "
            +:+ alias Example.keyless +:+ "." +:+ name pk
            +:+ " = $" +:+ alias Example.keyless +:+ "_" +:+ name pk).
Proof.
  split; [vm_compute; reflexivity|].
  intros [pk Heq].
  assert (Hres : result (sqlUpdate {[ "name" := JsString "x" ]}) Example.keyless
                 = "UPDATE mytable AS mt SET mt.name = $mt_name WHERE null = $null")
    by (vm_compute; reflexivity).
  rewrite Hres in Heq.
  change (alias Example.keyless) with "mt" in Heq.
  apply (inj (String.app "UPDATE mytable AS mt SET mt.name = $mt_name WHERE ")) in Heq.
  discriminate Heq.
Qed.

(** [getColumnAliases(false)], [getColumnNames(false)] and
    [getColumnFields(false, true)] on the descriptor of the test. *)
Lemma projections_spec_witness :
  Selects (fun col : Column Z => ~ (false = false /\ primaryKey col = Some true))
          (columns Example.tested) [Example.name_; Example.status]
  /\ result (getColumnAliases false) Example.tested = ["mt_name"; "mt_status"]
  /\ result (getColumnNames false) Example.tested = ["mt.name"; "mt.status"]
  /\ result (getColumnFields false true) Example.tested !! 0%nat
     = Some ("mt.name AS " +:+ dq +:+ "mt_name" +:+ dq).
Proof.
  assert (Hsel : Selects (fun col : Column Z => ~ (false = false /\ primaryKey col = Some true))
                         (columns Example.tested) [Example.name_; Example.status]).
  { apply Selects_omit; [intros Hno; apply Hno; split; reflexivity|].
    apply Selects_keep; [intros [_ Hpk]; discriminate Hpk|].
    apply Selects_keep; [intros [_ Hpk]; discriminate Hpk|].
    apply Selects_nil. }
  destruct (projections_spec Example.tested false true _ Hsel) as (Ha & Hn & _ & Hf).
  split; [exact Hsel|]. split; [rewrite Ha; reflexivity|]. split; [rewrite Hn; reflexivity|].
  rewrite (Hf 0%nat Example.name_); [reflexivity | reflexivity | right; reflexivity].
Defined.

(** C5 as stated fails: a column that says [primaryKey: false] is in the three
    outputs when [includePrimary] is false. *)
Lemma non_primary_column_present :
  In Example.title (columns Example.titled)
  /\ primaryKey Example.title = Some false
  /\ In "mt_title" (result (getColumnAliases false) Example.titled)
  /\ In "mt.title" (result (getColumnNames false) Example.titled)
  /\ In ("mt.title AS " +:+ dq +:+ "mt_title" +:+ dq)
        (result (getColumnFields false false) Example.titled).
Proof. repeat split; vm_compute; auto. Qed.

(** The primary key [id] of the descriptor of the test is in none of the
    outputs. *)
Lemma primary_key_absent_witness :
  In Example.id (columns Example.tested)
  /\ primaryKey Example.id = Some true
  /\ ~ In "mt_id" (result (getColumnAliases false) Example.tested)
  /\ ~ In "mt.id" (result (getColumnNames false) Example.tested).
Proof.
  split; [left; reflexivity|]. split; [reflexivity|].
  destruct (primary_key_absent Example.tested true) as (_ & _ & _ & Habsent & _).
  apply (Habsent Example.id); [left; reflexivity | reflexivity|].
  intros col [<-|[<-|[<-|[]]]] Hname; try reflexivity; discriminate Hname.
Defined.

(** The field of the column [status] of the descriptor of the test. *)
Lemma enum_field_spec_witness :
  enumValues Example.status
  = Some [ {| ev_value := EnumNumber 0%Z; ev_label := Some "Off" |};
           {| ev_value := EnumNumber 1%Z; ev_label := Some "On" |} ]
  /\ In Example.status (columns Example.tested)
  /\ Contains (result (sqlSelect true NoFilter) Example.tested)
       ("(CASE WHEN mt.status = 0 THEN 'Off' WHEN mt.status = 1 THEN 'On' ELSE 'Value "
        +:+ dq +:+ "' || mt.status || '" +:+ dq +:+ "' END) AS " +:+ dq
        +:+ "mt_status_label" +:+ dq).
Proof.
  assert (Hin : In Example.status (columns Example.tested))
    by (right; right; left; reflexivity).
  split; [reflexivity|]. split; [exact Hin|].
  apply (proj2 (enum_field_spec Example.tested Example.status _ eq_refl Hin) 0%Z 1%Z);
    reflexivity.
Defined.

(** C6 as stated fails: in the text of [sqlSelect(true)] the word [END] is
    followed by a closing parenthesis, so the text without it is in no field. *)
Lemma enum_field_without_parenthesis :
  let claimed :=
    "CASE WHEN mt.status = 0 THEN 'Off' WHEN mt.status = 1 THEN 'On' ELSE 'Value "
    +:+ dq +:+ "' || mt.status || '" +:+ dq +:+ "' END AS " +:+ dq
    +:+ "mt_status_label" +:+ dq in
  Forall (fun field => ~ Contains field claimed)
         (result (getColumnFields true true) Example.tested)
  /\ ~ Contains (result (sqlSelect true NoFilter) Example.tested) claimed.
Proof.
  intros claimed. split.
  - repeat constructor; apply not_Contains; vm_compute; reflexivity.
  - apply not_Contains. vm_compute. reflexivity.
Qed.

(** The round trip on the second column of the descriptor of the test. *)
Lemma alias_round_trip_witness :
  columns Example.tested !! 1%nat = Some Example.name_
  /\ result (getColumnAliases true) Example.tested !! 1%nat = Some "mt_name"
  /\ result (aliasToColumnName "mt_name") Example.tested = "name"
  /\ result (aliasToColumnName "name") Example.tested = "name".
Proof.
  destruct (alias_round_trip Example.tested) as (Hround & Hstrip & Hkeep).
  split; [reflexivity|].
  destruct (Hround 1%nat Example.name_ eq_refl) as (entry & Hentry & Hname).
  split; [reflexivity|]. split; [exact (Hstrip "name")|].
  apply Hkeep. intros [rest Hrest]. discriminate Hrest.
Defined.

(** [sqlDelete({alias: "mt_id", value: null})] on the descriptor of the test. *)
Lemma whereClause_spec_witness :
  alias Example.tested = "mt"
  /\ EndsIn (result (sqlDelete (OneFilter {| target := ByAlias "mt_id"; operator := None;
                                            value := ValueNull |})) Example.tested)
            " WHERE mt.id IS NULL"
  /\ result (sqlDelete (OneFilter {| target := ByColumn "id"; operator := None;
                                    value := ValueNumber 5%Z |})) Example.tested
     = "DELETE FROM mytable AS mt WHERE mt.id = 5".
Proof.
  destruct (whereClause_spec Example.tested) as (_ & _ & _ & _ & _ & _ & _ & Hex).
  split; [reflexivity|]. split; [apply Hex; reflexivity|]. reflexivity.
Defined.

(** ** Construction and mutation of a descriptor *)

Section Construction.

Context {num : Type} `{JsNum num}.

Lemma lower_char_idempotent (c : ascii) : lower_char (lower_char c) = lower_char c.
Proof. destruct c as [[] [] [] [] [] [] [] []]; reflexivity. Qed.

Lemma toLowerCase_idempotent (s : string) : toLowerCase (toLowerCase s) = toLowerCase s.
Proof.
  unfold toLowerCase. induction s as [|c s IH]; cbn; [reflexivity|].
  rewrite lower_char_idempotent, IH. reflexivity.
Qed.

Lemma mutate_keeps_names (m : Mutation) (this : Schema num) :
  alias (after (mutate m) this) = alias this
  /\ tableName (after (mutate m) this) = tableName this.
Proof. destruct m as [[c|cs]|[k|ks]]; split; reflexivity. Qed.

Lemma mutations_keep_names (ms : list Mutation) (this : Schema num) :
  alias (mutations ms this) = alias this
  /\ tableName (mutations ms this) = tableName this.
Proof.
  revert this. induction ms as [|m ms IH]; intros this; [split; reflexivity|].
  cbn [mutations fold_left]. fold (mutations ms (after (mutate m) this)).
  destruct (IH (after (mutate m) this)) as [Ha Ht].
  destruct (mutate_keeps_names m this) as [Ha' Ht'].
  split; congruence.
Qed.

(** X1. The alias of a descriptor is fixed at construction and is in lower
    case: after any sequence of [addColumn] and [addConstraint] calls,
    [getAlias()] is the lower-cased alias given to the constructor, or the
    lower-cased table name when the alias was left out or empty, in which case
    it is also what [getTableName(true)] returns; [getTableName(false)] is the
    table name as given. *)
Theorem alias_is_lower_case (table : string) (a : option string)
    (cols : option (list (Column num))) (ks : option (list ForeignKey))
    (ms : list Mutation) :
  let this := mutations ms (new_Schema table a cols ks) in
  result getAlias this = toLowerCase (or_else a table)
  /\ toLowerCase (result getAlias this) = result getAlias this
  /\ result (getTableName false) this = table
  /\ (a = None \/ a = Some EmptyString ->
      result getAlias this = result (getTableName true) this).
Proof.
  intros this.
  destruct (mutations_keep_names ms (new_Schema table a cols ks)) as [Ha Ht].
  fold this in Ha, Ht. cbn [new_Schema alias tableName] in Ha, Ht.
  change (result getAlias this) with (alias this).
  change (result (getTableName false) this) with (tableName this).
  change (result (getTableName true) this) with (toLowerCase (tableName this)).
  rewrite Ha, Ht. split; [reflexivity|]. split; [apply toLowerCase_idempotent|].
  split; [reflexivity|]. intros [->| ->]; reflexivity.
Qed.




End Construction.

(** ** The primary key *)

Section PrimaryKey.

Context {num : Type} `{JsNum num}.

Lemma FirstPrimary_or_none (cols : list (Column num)) :
  (exists pk, FirstPrimary cols pk) \/ Forall (fun col => primaryKey col <> Some true) cols.
Proof.
  induction cols as [|col cols IH]; [right; constructor|].
  destruct (truthy (primaryKey col)) eqn:E.
  - left. exists col. constructor. apply truthy_true, E.
  - assert (Hcol : primaryKey col <> Some true).
    { intros Hpk. apply truthy_true in Hpk. congruence. }
    destruct IH as [[pk Hpk]|Hnone].
    + left. exists pk. constructor; assumption.
    + right. constructor; assumption.
Qed.

Lemma FirstPrimary_In (cols : list (Column num)) (pk : Column num) :
  FirstPrimary cols pk -> In pk cols /\ primaryKey pk = Some true.
Proof.
  induction 1 as [pk rest Hpk|col rest pk _ _ [IH1 IH2]]; split; auto.
  - left. reflexivity.
  - right. exact IH1.
Qed.

Lemma filter_all_length {A : Type} (p : A -> bool) (l : list A) :
  length (List.filter p l) = length l -> forall x, In x l -> p x = true.
Proof.
  induction l as [|y l IH]; cbn; [intros _ x []|].
  pose proof (filter_length_le p l) as Hle.
  destruct (p y) eqn:Hy; cbn; intros Hlen x [<-|Hx].
  - exact Hy.
  - apply IH; [lia | exact Hx].
  - lia.
  - lia.
Qed.

Lemma filter_all {A : Type} (p : A -> bool) (l : list A) :
  (forall x, In x l -> p x = true) -> List.filter p l = l.
Proof.
  induction l as [|y l IH]; cbn; intros Hall; [reflexivity|].
  rewrite (Hall y) by (left; reflexivity). f_equal. apply IH.
  intros x Hx. apply Hall. right. exact Hx.
Qed.

Lemma getPrimaryKey_from_alias (useAlias : bool) (cols : list (Column num))
    (this this' : Schema num) :
  alias this = alias this' ->
  result (getPrimaryKey_from useAlias cols) this
  = result (getPrimaryKey_from useAlias cols) this'.
Proof.
  intros Ha. induction cols as [|col cols IH]; cbn [getPrimaryKey_from]; [reflexivity|].
  destruct (truthy (primaryKey col)); [|exact IH].
  unfold result, bind, getAlias, this_alias, reads, ret. cbn [fst]. rewrite Ha. reflexivity.
Qed.

Lemma getPrimaryKey_from_app (useAlias : bool) (cols cols' : list (Column num))
    (this : Schema num) :
  result (getPrimaryKey_from useAlias (cols ++ cols')) this
  = match result (getPrimaryKey_from useAlias cols) this with
    | Some k => Some k
    | None => result (getPrimaryKey_from useAlias cols') this
    end.
Proof.
  induction cols as [|col cols IH]; cbn [getPrimaryKey_from app]; [reflexivity|].
  destruct (truthy (primaryKey col)); [reflexivity | exact IH].
Qed.

(** X3. [getPrimaryKey] returns [null] exactly when no column is marked
    primary key, which is exactly when [getColumnAliases(false)] and
    [getColumnAliases(true)] are the same list.  Otherwise its result for
    [useAlias = true] is an entry of [getColumnAliases(true)] that
    [aliasToColumnName] maps back to the name of the first primary-key column,
    and its result for [useAlias = false] is an entry of
    [getColumnNames(true)]. *)
Theorem getPrimaryKey_spec (this : Schema num) (useAlias : bool) :
  (result (getPrimaryKey useAlias) this = None
   <-> Forall (fun col => primaryKey col <> Some true) (columns this))
  /\ (result (getPrimaryKey useAlias) this = None
      <-> result (getColumnAliases false) this = result (getColumnAliases true) this)
  /\ (forall key,
        result (getPrimaryKey true) this = Some key ->
        In key (result (getColumnAliases true) this)
        /\ exists pk, FirstPrimary (columns this) pk
                      /\ result (aliasToColumnName key) this = name pk)
  /\ (forall key,
        result (getPrimaryKey false) this = Some key ->
        In key (result (getColumnNames true) this)).
Proof.
  rewrite !getPrimaryKey_result.
  assert (Hnone : forall ua,
            result (getPrimaryKey_from ua (columns this)) this = None
            <-> Forall (fun col => primaryKey col <> Some true) (columns this)).
  { intros ua. split; [|apply getPrimaryKey_from_none].
    intros Hres. destruct (FirstPrimary_or_none (columns this)) as [[pk Hpk]|Hno];
      [|exact Hno].
    rewrite (getPrimaryKey_from_first ua _ pk this Hpk) in Hres. discriminate Hres. }
  assert (Hsome : forall ua key,
            result (getPrimaryKey_from ua (columns this)) this = Some key ->
            exists pk, FirstPrimary (columns this) pk
                       /\ key = alias this +:+ (if ua then "_" else ".") +:+ name pk).
  { intros ua key Hres.
    destruct (FirstPrimary_or_none (columns this)) as [[pk Hpk]|Hno].
    - exists pk. split; [exact Hpk|].
      rewrite (getPrimaryKey_from_first ua _ pk this Hpk) in Hres. congruence.
    - rewrite (getPrimaryKey_from_none ua _ this Hno) in Hres. discriminate Hres. }
  split; [apply Hnone|]. split; [|split].
  - rewrite Hnone.
    change (result (getColumnAliases false) this)
      with (map (fun col => alias this +:+ "_" +:+ name col)
                (List.filter (keep false) (columns this))).
    change (result (getColumnAliases true) this)
      with (map (fun col => alias this +:+ "_" +:+ name col)
                (List.filter (keep true) (columns this))).
    rewrite filter_keep_all. split.
    + intros Hno. rewrite filter_all; [reflexivity|].
      intros col Hcol. apply keep_true. intros [_ Hpk].
      rewrite List.Forall_forall in Hno. exact (Hno col Hcol Hpk).
    + intros Heq. apply (f_equal (@length string)) in Heq. rewrite !length_map in Heq.
      apply List.Forall_forall. intros col Hcol Hpk.
      pose proof (filter_all_length _ _ Heq col Hcol) as Hk.
      apply keep_true in Hk. apply Hk. split; [reflexivity | exact Hpk].
  - intros key Hkey.
    destruct (Hsome true key Hkey) as (pk & Hpk & ->).
    destruct (FirstPrimary_In _ _ Hpk) as [Hin _]. split.
    + change (result (getColumnAliases true) this)
        with (map (fun col => alias this +:+ "_" +:+ name col)
                  (List.filter (keep true) (columns this))).
      rewrite filter_keep_all.
      apply (in_map (fun col => alias this +:+ "_" +:+ name col)), Hin.
    + exists pk. split; [exact Hpk | apply aliasToColumnName_strips].
  - intros key Hkey.
    destruct (Hsome false key Hkey) as (pk & Hpk & ->).
    destruct (FirstPrimary_In _ _ Hpk) as [Hin _].
    change (result (getColumnNames true) this)
      with (map (fun col => alias this +:+ "." +:+ name col)
                (List.filter (keep true) (columns this))).
    rewrite filter_keep_all.
    apply (in_map (fun col => alias this +:+ "." +:+ name col)), Hin.
Qed.

(** X4. The first primary key wins: once [getPrimaryKey] returns a key, it
    returns the same key after any [addColumn], whatever the added columns
    say; and adding columns that are not primary keys never changes what
    [getPrimaryKey] returns. *)
Theorem getPrimaryKey_addColumn (this : Schema num) (useAlias : bool)
    (cs : list (Column num)) :
  (forall key,
     result (getPrimaryKey useAlias) this = Some key ->
     result (getPrimaryKey useAlias) (after (addColumn (inr cs)) this) = Some key)
  /\ (Forall (fun col => primaryKey col <> Some true) cs ->
      result (getPrimaryKey useAlias) (after (addColumn (inr cs)) this)
      = result (getPrimaryKey useAlias) this).
Proof.
  assert (Hafter : result (getPrimaryKey useAlias) (after (addColumn (inr cs)) this)
                   = match result (getPrimaryKey useAlias) this with
                     | Some k => Some k
                     | None => result (getPrimaryKey_from useAlias cs) this
                     end).
  { rewrite !getPrimaryKey_result.
    change (columns (after (addColumn (inr cs)) this)) with (columns this ++ cs).
    rewrite (getPrimaryKey_from_alias useAlias _ (after (addColumn (inr cs)) this) this)
      by reflexivity.
    apply getPrimaryKey_from_app. }
  split.
  - intros key Hkey. rewrite Hafter, Hkey. reflexivity.
  - intros Hcs. rewrite Hafter.
    destruct (result (getPrimaryKey useAlias) this); [reflexivity|].
    apply getPrimaryKey_from_none, Hcs.
Qed.

(** X5. [sqlUpdate] never assigns a primary-key column: when the only keys of
    [data] that name a column name primary-key columns (or when none does),
    the SET list is empty and the statement reads
    [UPDATE <table> AS <alias> SET  WHERE <alias>.<pk> = $<alias>_<pk>]. *)
Theorem sqlUpdate_empty_set (this : Schema num) (data : gmap string (JsValue num))
    (pk : Column num) :
  FirstPrimary (columns this) pk ->
  (forall col, In col (columns this) -> is_Some (data !! name col) ->
               primaryKey col = Some true) ->
  result (sqlUpdate data) this
  = "UPDATE " +:+ toLowerCase (tableName this) +:+ " AS " +:+ alias this +:+ " SET  WHERE "
    +:+ alias this +:+ "." +:+ name pk +:+ " = $" +:+ alias this +:+ "_" +:+ name pk.
Proof.
  intros Hpk Hdata.
  pose proof (sqlUpdate_result this data) as Hres. cbv zeta in Hres.
  rewrite Hres, !getPrimaryKey_result.
  rewrite !(getPrimaryKey_from_first _ _ pk) by exact Hpk.
  assert (Hnone : List.filter (fun col => hasOwnProperty data (name col)
                                          && negb (truthy (primaryKey col)))
                              (columns this) = []).
  { clear Hres Hpk. revert Hdata. generalize (columns this) as cols.
    induction cols as [|col cols IH]; intros Hdata; [reflexivity|]. cbn [List.filter].
    destruct (hasOwnProperty data (name col) && negb (truthy (primaryKey col))) eqn:E.
    - apply andb_true_iff in E as [Hkey Hnot]. apply negb_true_iff in Hnot.
      apply present_is_Some in Hkey.
      apply Hdata in Hkey; [|left; reflexivity].
      apply truthy_true in Hkey. congruence.
    - apply IH. intros c Hc. apply Hdata. right. exact Hc. }
  rewrite Hnone. cbn [map join interpolate]. rewrite !append_assoc. reflexivity.
Qed.

(** X6. The values of [data] are never put in the statement, and keys that
    name no column are ignored: [sqlInsert] depends on [data] only through
    which alias-keys [<alias>_<name>] of the columns it has, [sqlUpdate] only
    through which bare column names it has. *)
Theorem data_values_unused (this : Schema num) (data data' : gmap string (JsValue num)) :
  ((forall col, In col (columns this) ->
      (is_Some (data !! (alias this +:+ "_" +:+ name col))
       <-> is_Some (data' !! (alias this +:+ "_" +:+ name col)))) ->
   result (sqlInsert data) this = result (sqlInsert data') this)
  /\ ((forall col, In col (columns this) ->
         (is_Some (data !! name col) <-> is_Some (data' !! name col))) ->
      result (sqlUpdate data) this = result (sqlUpdate data') this).
Proof.
  assert (Hext : forall (p q : Column num -> bool) (l : list (Column num)),
            (forall col, In col l -> p col = q col) -> List.filter p l = List.filter q l).
  { intros p q l. induction l as [|x l IH]; cbn; intros Hpq; [reflexivity|].
    rewrite (Hpq x) by (left; reflexivity).
    rewrite IH by (intros col Hc; apply Hpq; right; exact Hc). reflexivity. }
  assert (Hown : forall k k', (is_Some (data !! k) <-> is_Some (data' !! k')) ->
            hasOwnProperty data k = hasOwnProperty data' k').
  { intros k k' Hk. unfold hasOwnProperty.
    destruct (present (data !! k)) eqn:E, (present (data' !! k')) eqn:E'; try reflexivity.
    - apply present_is_Some, Hk, present_is_Some in E. congruence.
    - apply present_is_Some, Hk, present_is_Some in E'. congruence. }
  split; intros Hsame.
  - pose proof (sqlInsert_result this data) as Hd.
    pose proof (sqlInsert_result this data') as Hd'. cbv zeta in Hd, Hd'.
    rewrite Hd, Hd'.
    rewrite (Hext _ (fun col => hasOwnProperty data' (alias this +:+ "_" +:+ name col)));
      [reflexivity|].
    intros col Hcol. apply Hown, Hsame, Hcol.
  - pose proof (sqlUpdate_result this data) as Hd.
    pose proof (sqlUpdate_result this data') as Hd'. cbv zeta in Hd, Hd'.
    rewrite Hd, Hd'.
    rewrite (Hext _ (fun col => hasOwnProperty data' (name col)
                                && negb (truthy (primaryKey col))));
      [reflexivity|].
    intros col Hcol. f_equal. apply Hown, Hsame, Hcol.
Qed.

End PrimaryKey.

(** ** The constraint blocks *)

Section Constraints.

Context {num : Type} `{JsNum num}.

(** The block that [sqlCreateEnumConstraints] writes for a column. *)
Lemma enum_blocks_fold (table : string) (cols : list (Column num)) (acc : list string) :
  fold_left
    (fun constraints col =>
       match enumValues col with
       | Some evs =>
           constraints ++
           [constraintBlock table (table +:+ "_" +:+ name col +:+ "_enum_chk")
              (" CHECK (" +:+ name col +:+ " IN ("
               +:+ join ", " (map (fun ev => enumLiteral (ev_value ev)) evs) +:+ "));")]
       | None => constraints
       end)
    cols acc
  = acc ++ omap (fun col =>
                   match enumValues col with
                   | Some evs =>
                       Some (constraintBlock table (table +:+ "_" +:+ name col +:+ "_enum_chk")
                               (" CHECK (" +:+ name col +:+ " IN ("
                                +:+ join ", " (map (fun ev => enumLiteral (ev_value ev)) evs)
                                +:+ "));"))
                   | None => None
                   end) cols.
Proof.
  revert acc. induction cols as [|col cols IH]; intros acc; cbn [fold_left omap list_omap].
  - rewrite app_nil_r. reflexivity.
  - rewrite IH. destruct (enumValues col); [rewrite <- List.app_assoc|]; reflexivity.
Qed.

(** X7. [sqlCreateEnumConstraints()] returns one block per column that has
    [enumValues] (an empty list of values counts), in declaration order and
    for no other column: the block adds the constraint
    [<table>_<name>_enum_chk] with [CHECK (<name> IN (<literals>))], the
    literals joined with [, ].  It returns the empty list exactly when no
    column has [enumValues]. *)
Theorem sqlCreateEnumConstraints_spec (this : Schema num) (chosen : list (Column num)) :
  let table := toLowerCase (tableName this) in
  Selects (fun col => enumValues col <> None) (columns this) chosen ->
  Forall2
    (fun col block =>
       exists evs,
         enumValues col = Some evs
         /\ block = constraintBlock table (table +:+ "_" +:+ name col +:+ "_enum_chk")
                      (" CHECK (" +:+ name col +:+ " IN ("
                       +:+ join ", " (map (fun ev => enumLiteral (ev_value ev)) evs)
                       +:+ "));"))
    chosen (result sqlCreateEnumConstraints this)
  /\ (result sqlCreateEnumConstraints this = []
      <-> forall col, In col (columns this) -> enumValues col = None).
Proof.
  intros table Hsel.
  change (result sqlCreateEnumConstraints this)
    with (fold_left
            (fun constraints col =>
               match enumValues col with
               | Some evs =>
                   constraints ++
                   [constraintBlock table (table +:+ "_" +:+ name col +:+ "_enum_chk")
                      (" CHECK (" +:+ name col +:+ " IN ("
                       +:+ join ", " (map (fun ev => enumLiteral (ev_value ev)) evs)
                       +:+ "));")]
               | None => constraints
               end)
            (columns this) []).
  rewrite enum_blocks_fold. cbn [app].
  assert (Hblocks :
    Forall2
      (fun col block =>
         exists evs,
           enumValues col = Some evs
           /\ block = constraintBlock table (table +:+ "_" +:+ name col +:+ "_enum_chk")
                        (" CHECK (" +:+ name col +:+ " IN ("
                         +:+ join ", " (map (fun ev => enumLiteral (ev_value ev)) evs)
                         +:+ "));"))
      chosen
      (omap (fun col =>
               match enumValues col with
               | Some evs =>
                   Some (constraintBlock table (table +:+ "_" +:+ name col +:+ "_enum_chk")
                           (" CHECK (" +:+ name col +:+ " IN ("
                            +:+ join ", " (map (fun ev => enumLiteral (ev_value ev)) evs)
                            +:+ "));"))
               | None => None
               end) (columns this))).
  { induction Hsel as [|col l k Hcol _ IH|col l k Hcol _ IH]; cbn [omap list_omap].
    - constructor.
    - destruct (enumValues col) as [evs|] eqn:E; [|contradiction Hcol; reflexivity].
      constructor; [exists evs; split; [exact E | reflexivity] | exact IH].
    - destruct (enumValues col) as [evs|] eqn:E; [contradiction Hcol; discriminate|].
      exact IH. }
  split; [exact Hblocks|].
  split.
  - intros Hnil. rewrite Hnil in Hblocks. inversion Hblocks; subst.
    intros col Hcol. apply Selects_nil_iff with (x := col) in Hsel; [|exact Hcol].
    destruct (enumValues col); [contradiction Hsel; discriminate | reflexivity].
  - clear Hsel Hblocks. generalize (columns this) as cols.
    induction cols as [|col cols IH]; intros Hnone; [reflexivity|].
    cbn [omap list_omap]. rewrite (Hnone col) by (left; reflexivity).
    apply IH. intros c Hc. apply Hnone. right. exact Hc.
Qed.

Lemma fk_blocks_fold {A : Type} (f : A -> string) (l : list A) (acc : list string) :
  fold_left (fun constraintsSql x => constraintsSql ++ [f x]) l acc = acc ++ map f l.
Proof.
  revert acc. induction l as [|x l IH]; intros acc; cbn.
  - rewrite app_nil_r. reflexivity.
  - rewrite IH, <- List.app_assoc. reflexivity.
Qed.

(** X8. [sqlCreateTableConstraints()] returns exactly one block per foreign
    key, the [i]-th block for the [i]-th key: it adds the constraint
    [<table>_<localColumn>_fk] with
    [FOREIGN KEY (<local>) REFERENCES <lower-cased table>(<column>)] followed by
    [ ON DELETE <action>] and [ ON UPDATE <action>] for the actions that are
    present, in this order, and nothing for the absent ones. *)
Theorem sqlCreateTableConstraints_spec (this : Schema num) :
  let table := toLowerCase (tableName this) in
  length (result sqlCreateTableConstraints this) = length (constraints this)
  /\ forall i fk,
       constraints this !! i = Some fk ->
       result sqlCreateTableConstraints this !! i
       = Some (constraintBlock table (table +:+ "_" +:+ localColumn fk +:+ "_fk")
                 (" FOREIGN KEY (" +:+ localColumn fk +:+ ") REFERENCES "
                  +:+ toLowerCase (referencedTable fk) +:+ "(" +:+ referencedColumn fk +:+ ")"
                  +:+ actions_text fk +:+ ";")).
Proof.
  intros table.
  assert (Hres : result sqlCreateTableConstraints this
                 = map (fun fk =>
                          constraintBlock table (table +:+ "_" +:+ localColumn fk +:+ "_fk")
                            (" FOREIGN KEY (" +:+ localColumn fk +:+ ") REFERENCES "
                             +:+ toLowerCase (referencedTable fk) +:+ "("
                             +:+ referencedColumn fk +:+ ")" +:+ actions_text fk +:+ ";"))
                       (constraints this)).
  { unfold sqlCreateTableConstraints.
    rewrite result_bind by apply getTableName_read_only.
    rewrite result_bind by apply read_only_reads.
    change (result (getTableName true) this) with table.
    change (result this_constraints this) with (constraints this).
    unfold result, ret. cbn [fst].
    rewrite fk_blocks_fold.
    cbn [app]. apply map_ext. intros fk. unfold actions_text.
    destruct (onDelete fk), (onUpdate fk); cbn [app join]; rewrite ?append_assoc; reflexivity. }
  rewrite Hres. split; [apply length_map|].
  intros i fk Hi.
  apply (lookup_map
           (fun fk =>
              constraintBlock table (table +:+ "_" +:+ localColumn fk +:+ "_fk")
                (" FOREIGN KEY (" +:+ localColumn fk +:+ ") REFERENCES "
                 +:+ toLowerCase (referencedTable fk) +:+ "("
                 +:+ referencedColumn fk +:+ ")" +:+ actions_text fk +:+ ";"))
           _ _ _ Hi).
Qed.

End Constraints.

(** ** What the statements depend on *)

Section Dependence.

Context {num : Type} `{JsNum num}.

Ltac run_fields :=
  cbv beta iota delta
    [result after bind ret reads getAlias getTableName
     this_alias this_columns this_tableName this_constraints fst snd].

Lemma columnField_alias (a : string) (useLabels : bool) (col : Column num)
    (this this' : Schema num) :
  alias this = alias this' ->
  result (columnField a useLabels col) this = result (columnField a useLabels col) this'.
Proof.
  intros Ha. unfold columnField, enumExpression.
  destruct useLabels, (enumValues col); cbn [andb present]; run_fields;
    rewrite ?Ha; reflexivity.
Qed.

Lemma getColumnFields_fields (includePrimary useLabels : bool) (this this' : Schema num) :
  alias this = alias this' -> columns this = columns this' ->
  result (getColumnFields includePrimary useLabels) this
  = result (getColumnFields includePrimary useLabels) this'.
Proof.
  intros Ha Hc. rewrite !getColumnFields_result, <- Hc, <- Ha.
  apply map_ext. intros col. apply columnField_alias, Ha.
Qed.

Lemma whereClause_alias (filter : FilterArg num) (this this' : Schema num) :
  alias this = alias this' ->
  result (whereClause filter) this = result (whereClause filter) this'.
Proof.
  intros Ha.
  assert (Hcond : forall f, result (condition (alias this) f) this
                            = result (condition (alias this') f) this').
  { intros f. pose proof (condition_result (alias this) f this) as Hc.
    pose proof (condition_result (alias this') f this') as Hc'. cbv zeta in Hc, Hc'.
    rewrite Hc, Hc', !Ha.
    assert (Hcol : match target f with
                   | ByColumn c => c
                   | ByAlias x => result (aliasToColumnName x) this
                   end
                   = match target f with
                     | ByColumn c => c
                     | ByAlias x => result (aliasToColumnName x) this'
                     end).
    { destruct (target f); [reflexivity|]. rewrite !aliasToColumnName_result, Ha. reflexivity. }
    rewrite Hcol. reflexivity. }
  destruct filter as [|f|fs]; [reflexivity| |].
  - rewrite !whereClause_one, Hcond. reflexivity.
  - rewrite !whereClause_list. f_equal. f_equal. apply map_ext, Hcond.
Qed.

(** X9. The SQL never shows the table name as it was given, only in lower
    case: two descriptors that differ only in the case of the letters of
    their table name give the same text for every statement. *)
Theorem table_name_case (this : Schema num) (table : string) :
  toLowerCase table = toLowerCase (tableName this) ->
  let this' := with_tableName table this in
  result sqlCreateTable this' = result sqlCreateTable this
  /\ result sqlCreateEnumConstraints this' = result sqlCreateEnumConstraints this
  /\ result sqlCreateTableConstraints this' = result sqlCreateTableConstraints this
  /\ result sqlTableDrop this' = result sqlTableDrop this
  /\ (forall useLabels filter,
        result (sqlSelect useLabels filter) this' = result (sqlSelect useLabels filter) this)
  /\ (forall data, result (sqlInsert data) this' = result (sqlInsert data) this)
  /\ (forall data, result (sqlUpdate data) this' = result (sqlUpdate data) this)
  /\ (forall filter, result (sqlDelete filter) this' = result (sqlDelete filter) this).
Proof.
  intros Hcase this'.
  split; [|split; [|split; [|split; [|split; [|split; [|split]]]]]].
  - unfold sqlCreateTable. run_fields. cbn [with_tableName tableName columns this'].
    rewrite Hcase. reflexivity.
  - unfold sqlCreateEnumConstraints. run_fields. cbn [with_tableName tableName columns this'].
    rewrite Hcase. reflexivity.
  - unfold sqlCreateTableConstraints. run_fields.
    cbn [with_tableName tableName constraints this']. rewrite Hcase. reflexivity.
  - unfold sqlTableDrop. run_fields. cbn [with_tableName tableName this'].
    rewrite Hcase. reflexivity.
  - intros useLabels filter. rewrite !sqlSelect_result.
    rewrite (getColumnFields_fields true useLabels this' this) by reflexivity.
    rewrite (whereClause_alias filter this' this) by reflexivity.
    cbn [with_tableName tableName alias this']. rewrite Hcase. reflexivity.
  - intros data. pose proof (sqlInsert_result this data) as Hd.
    pose proof (sqlInsert_result this' data) as Hd'. cbv zeta in Hd, Hd'.
    rewrite Hd, Hd'. cbn [with_tableName tableName alias columns this'].
    rewrite Hcase. reflexivity.
  - intros data. pose proof (sqlUpdate_result this data) as Hd.
    pose proof (sqlUpdate_result this' data) as Hd'. cbv zeta in Hd, Hd'.
    rewrite Hd, Hd', !getPrimaryKey_result.
    cbn [with_tableName tableName alias columns this'].
    rewrite !(getPrimaryKey_from_alias _ _ (with_tableName table this) this) by reflexivity.
    rewrite Hcase. reflexivity.
  - intros filter. rewrite !sqlDelete_result.
    rewrite (whereClause_alias filter this' this) by reflexivity.
    cbn [with_tableName tableName alias this']. rewrite Hcase. reflexivity.
Qed.

Lemma filter_map_same {A : Type} (p : A -> bool) (g : A -> A) (l : list A) :
  (forall x, p (g x) = p x) -> List.filter p (map g l) = map g (List.filter p l).
Proof.
  intros Hp. induction l as [|x l IH]; cbn; [reflexivity|].
  rewrite Hp. destruct (p x); cbn; rewrite IH; reflexivity.
Qed.

Lemma map_map_same {A B : Type} (f : A -> B) (g : A -> A) (l : list A) :
  (forall x, f (g x) = f x) -> map f (map g l) = map f l.
Proof. intros Hf. rewrite map_map. apply map_ext, Hf. Qed.

Lemma getPrimaryKey_from_map (useAlias : bool) (g : Column num -> Column num)
    (cols : list (Column num)) (this : Schema num) :
  (forall col, name (g col) = name col /\ primaryKey (g col) = primaryKey col) ->
  result (getPrimaryKey_from useAlias (map g cols)) this
  = result (getPrimaryKey_from useAlias cols) this.
Proof.
  intros Hg. induction cols as [|col cols IH]; cbn [map getPrimaryKey_from]; [reflexivity|].
  destruct (Hg col) as [-> ->]. destruct (truthy (primaryKey col)); [reflexivity | exact IH].
Qed.

(** X10. The [foreignKey] flag of a column is information only: whatever the
    flags of the columns are changed to, every projection and every statement
    stays the same. *)
Theorem foreignKey_flag_unused (this : Schema num) (flag : Column num -> option bool) :
  let this' :=
    with_columns (map (fun col => with_foreignKey (flag col) col) (columns this)) this in
  (forall includePrimary,
     result (getColumnAliases includePrimary) this'
     = result (getColumnAliases includePrimary) this)
  /\ (forall includePrimary,
        result (getColumnNames includePrimary) this'
        = result (getColumnNames includePrimary) this)
  /\ (forall includePrimary useLabels,
        result (getColumnFields includePrimary useLabels) this'
        = result (getColumnFields includePrimary useLabels) this)
  /\ (forall useAlias, result (getPrimaryKey useAlias) this' = result (getPrimaryKey useAlias) this)
  /\ result sqlCreateTable this' = result sqlCreateTable this
  /\ result sqlCreateEnumConstraints this' = result sqlCreateEnumConstraints this
  /\ (forall useLabels filter,
        result (sqlSelect useLabels filter) this' = result (sqlSelect useLabels filter) this)
  /\ (forall data, result (sqlInsert data) this' = result (sqlInsert data) this)
  /\ (forall data, result (sqlUpdate data) this' = result (sqlUpdate data) this).
Proof.
  intros this'.
  set (g := fun col : Column num => with_foreignKey (flag col) col).
  assert (Hcols : columns this' = map g (columns this)) by reflexivity.
  assert (Halias : alias this' = alias this) by reflexivity.
  assert (Htable : tableName this' = tableName this) by reflexivity.
  assert (Hfields : forall includePrimary useLabels,
            result (getColumnFields includePrimary useLabels) this'
            = result (getColumnFields includePrimary useLabels) this).
  { intros includePrimary useLabels. rewrite !getColumnFields_result, Hcols, Halias.
    rewrite filter_map_same by reflexivity.
    rewrite map_map. apply map_ext. intros col.
    rewrite (columnField_alias _ _ _ this' this Halias).
    unfold columnField. reflexivity. }
  assert (Hpk : forall useAlias,
            result (getPrimaryKey useAlias) this' = result (getPrimaryKey useAlias) this).
  { intros useAlias. rewrite !getPrimaryKey_result, Hcols.
    rewrite (getPrimaryKey_from_alias useAlias _ this' this Halias).
    apply getPrimaryKey_from_map. intros col. split; reflexivity. }
  split; [|split; [|split; [|split; [|split; [|split; [|split; [|split]]]]]]].
  - intros includePrimary. unfold getColumnAliases. run_fields. rewrite Hcols, Halias.
    rewrite filter_map_same by reflexivity. rewrite map_map. reflexivity.
  - intros includePrimary. unfold getColumnNames. run_fields. rewrite Hcols, Halias.
    rewrite filter_map_same by reflexivity. rewrite map_map. reflexivity.
  - exact Hfields.
  - exact Hpk.
  - unfold sqlCreateTable. run_fields. rewrite Hcols, Htable.
    rewrite map_map. reflexivity.
  - change (result sqlCreateEnumConstraints this')
      with (fold_left
              (fun constraints col =>
                 match enumValues col with
                 | Some evs =>
                     constraints ++
                     [constraintBlock (toLowerCase (tableName this))
                        (toLowerCase (tableName this) +:+ "_" +:+ name col +:+ "_enum_chk")
                        (" CHECK (" +:+ name col +:+ " IN ("
                         +:+ join ", " (map (fun ev => enumLiteral (ev_value ev)) evs)
                         +:+ "));")]
                 | None => constraints
                 end)
              (map g (columns this)) []).
    change (result sqlCreateEnumConstraints this)
      with (fold_left
              (fun constraints col =>
                 match enumValues col with
                 | Some evs =>
                     constraints ++
                     [constraintBlock (toLowerCase (tableName this))
                        (toLowerCase (tableName this) +:+ "_" +:+ name col +:+ "_enum_chk")
                        (" CHECK (" +:+ name col +:+ " IN ("
                         +:+ join ", " (map (fun ev => enumLiteral (ev_value ev)) evs)
                         +:+ "));")]
                 | None => constraints
                 end)
              (columns this) []).
    rewrite !enum_blocks_fold. cbn [app].
    generalize (columns this) as cols.
    induction cols as [|col cols IH]; [reflexivity|].
    cbn [map omap list_omap]. rewrite IH. reflexivity.
  - intros useLabels filter. rewrite !sqlSelect_result, Hfields, Htable, Halias.
    rewrite (whereClause_alias filter this' this Halias). reflexivity.
  - intros data. pose proof (sqlInsert_result this data) as Hd.
    pose proof (sqlInsert_result this' data) as Hd'. cbv zeta in Hd, Hd'.
    rewrite Hd, Hd', Hcols, Htable, Halias.
    rewrite filter_map_same by reflexivity. rewrite !map_map.
    destruct (List.filter _ (columns this)); reflexivity.
  - intros data. pose proof (sqlUpdate_result this data) as Hd.
    pose proof (sqlUpdate_result this' data) as Hd'. cbv zeta in Hd, Hd'.
    rewrite Hd, Hd', !Hpk, Hcols, Htable, Halias.
    rewrite filter_map_same by reflexivity. rewrite map_map. reflexivity.
Qed.

End Dependence.

(** ** Added columns, filter shapes and quoting *)

Section Composition.

Context {num : Type} `{JsNum num}.

Ltac run_fields :=
  cbv beta iota delta
    [result after bind ret reads getAlias getTableName
     this_alias this_columns this_tableName this_constraints fst snd].

(** X11. Columns added with [addColumn] come after the ones already there in
    every projection, and the entries of the old columns stay as they were:
    the output of [getColumnAliases], [getColumnNames], [getColumnFields] and
    [sqlCreateEnumConstraints] after the call is the output before it followed
    by the output for the added columns alone. *)
Theorem addColumn_appends (this : Schema num) (cs : list (Column num))
    (includePrimary useLabels : bool) :
  let this' := after (addColumn (inr cs)) this in
  let added := with_columns cs this in
  result (getColumnAliases includePrimary) this'
  = result (getColumnAliases includePrimary) this
    ++ result (getColumnAliases includePrimary) added
  /\ result (getColumnNames includePrimary) this'
     = result (getColumnNames includePrimary) this
       ++ result (getColumnNames includePrimary) added
  /\ result (getColumnFields includePrimary useLabels) this'
     = result (getColumnFields includePrimary useLabels) this
       ++ result (getColumnFields includePrimary useLabels) added
  /\ result sqlCreateEnumConstraints this'
     = result sqlCreateEnumConstraints this ++ result sqlCreateEnumConstraints added.
Proof.
  intros this' added.
  assert (Hcols : columns this' = columns this ++ cs) by reflexivity.
  split; [|split; [|split]].
  - unfold getColumnAliases. run_fields. rewrite Hcols, List.filter_app, List.map_app. reflexivity.
  - unfold getColumnNames. run_fields. rewrite Hcols, List.filter_app, List.map_app. reflexivity.
  - rewrite !getColumnFields_result, Hcols, List.filter_app, List.map_app. f_equal.
    + apply map_ext. intros col. apply columnField_alias. reflexivity.
    + apply map_ext. intros col. apply columnField_alias. reflexivity.
  - unfold sqlCreateEnumConstraints. run_fields. rewrite Hcols, fold_left_app.
    rewrite (enum_blocks_fold _ cs), (enum_blocks_fold _ cs []). reflexivity.
Qed.

Lemma join_app (sep : string) (xs ys : list string) :
  xs <> [] -> ys <> [] -> join sep (xs ++ ys) = join sep xs +:+ sep +:+ join sep ys.
Proof.
  intros Hxs Hys. induction xs as [|x xs IH]; [contradiction Hxs; reflexivity|].
  destruct xs as [|x' xs].
  - cbn [app]. apply join_cons, Hys.
  - change ((x :: x' :: xs) ++ ys) with (x :: (x' :: xs) ++ ys).
    rewrite join_cons by discriminate. rewrite IH by discriminate.
    rewrite (join_cons sep x (x' :: xs)) by discriminate.
    rewrite !append_assoc. reflexivity.
Qed.

(** X12. The two shapes of a filter are interchangeable: [{alias: "<alias>_c"}]
    gives the same statement as [{column: "c"}], an alias reference that does
    not start with [<alias>_] is taken as a bare column name, and a single
    filter gives the same statement as the list holding only it.  The
    where-clause of two non-empty lists put end to end is the clause of the
    first, then [ AND ], then the clause of the second without its [ WHERE ]. *)
Theorem filter_shapes (this : Schema num) :
  (forall c op v,
     result (sqlDelete (OneFilter {| target := ByAlias (alias this +:+ "_" +:+ c);
                                     operator := op; value := v |})) this
     = result (sqlDelete (OneFilter {| target := ByColumn c; operator := op;
                                       value := v |})) this)
  /\ (forall x op v,
        ~ (exists rest, x = alias this +:+ "_" +:+ rest) ->
        result (sqlDelete (OneFilter {| target := ByAlias x; operator := op;
                                        value := v |})) this
        = result (sqlDelete (OneFilter {| target := ByColumn x; operator := op;
                                          value := v |})) this)
  /\ (forall f useLabels,
        result (sqlDelete (OneFilter f)) this = result (sqlDelete (FilterList [f])) this
        /\ result (sqlSelect useLabels (OneFilter f)) this
           = result (sqlSelect useLabels (FilterList [f])) this)
  /\ (forall fs fs',
        fs <> [] -> fs' <> [] ->
        result (whereClause (FilterList (fs ++ fs'))) this
        = result (whereClause (FilterList fs)) this +:+ " AND "
          +:+ substring (String.length " WHERE ") (result (whereClause (FilterList fs')) this)).
Proof.
  assert (Hshape : forall x c op v,
            result (aliasToColumnName x) this = c ->
            result (sqlDelete (OneFilter {| target := ByAlias x; operator := op;
                                            value := v |})) this
            = result (sqlDelete (OneFilter {| target := ByColumn c; operator := op;
                                              value := v |})) this).
  { intros x c op v Hx. rewrite !sqlDelete_result, !whereClause_one.
    pose proof (condition_result (alias this)
                  {| target := ByAlias x; operator := op; value := v |} this) as Ha.
    pose proof (condition_result (alias this)
                  {| target := ByColumn c; operator := op; value := v |} this) as Hc.
    cbv zeta in Ha, Hc. rewrite Ha, Hc. cbn [target value operator]. unfold asks_is_not.
    cbn [operator]. rewrite Hx. reflexivity. }
  split; [|split; [|split]].
  - intros c op v. apply Hshape, aliasToColumnName_strips.
  - intros x op v Hno. apply Hshape. rewrite aliasToColumnName_result.
    destruct (startsWith x (alias this +:+ "_")) eqn:E; [|reflexivity].
    exfalso. apply Hno. apply startsWith_inv in E as [rest ->].
    exists rest. apply append_assoc.
  - intros f useLabels. rewrite !sqlDelete_result, !sqlSelect_result.
    rewrite whereClause_one, whereClause_list. split; reflexivity.
  - intros fs fs' Hfs Hfs'. rewrite !whereClause_list, map_app.
    rewrite join_app.
    + rewrite (substring_app " WHERE "). rewrite !append_assoc. reflexivity.
    + destruct fs; [contradiction Hfs; reflexivity | discriminate].
    + destruct fs'; [contradiction Hfs'; reflexivity | discriminate].
Qed.

Lemma append_quote_cancel (s s' : string) : s +:+ "'" = s' +:+ "'" -> s = s'.
Proof.
  revert s'. induction s as [|c s IH]; intros [|c' s'] Heq.
  - reflexivity.
  - rewrite append_empty_l, append_cons in Heq. injection Heq as _ Heq.
    destruct s'; discriminate Heq.
  - rewrite append_empty_l, append_cons in Heq. injection Heq as _ Heq.
    destruct s; discriminate Heq.
  - rewrite !append_cons in Heq. injection Heq as -> Heq. f_equal. apply IH, Heq.
Qed.

Lemma doubling_injective (s s' : string) :
  replaceAll "'" "''" s = replaceAll "'" "''" s' -> s = s'.
Proof.
  revert s'. induction s as [|c s IH]; intros [|c' s']; cbn [replaceAll]; intros Heq.
  - reflexivity.
  - destruct (Ascii.eqb c' "'"); discriminate Heq.
  - destruct (Ascii.eqb c "'"); discriminate Heq.
  - destruct (Ascii.eqb_spec c "'") as [->|Hc], (Ascii.eqb_spec c' "'") as [->|Hc'].
    + apply (inj (String.app "''")) in Heq. f_equal. apply IH, Heq.
    + exfalso. rewrite !append_cons in Heq. injection Heq as Heq _. congruence.
    + exfalso. rewrite !append_cons in Heq. injection Heq as Heq _. congruence.
    + injection Heq as -> Heq. f_equal. apply IH, Heq.
Qed.

(** X13. Quoting loses nothing: two different texts never get the same
    quoted literal, be it the literal of a string default, of an enumerated
    string value, or of a string filter value. *)
Theorem quoting_injective (s s' : string) :
  (defaultLiteral (num:=num) (DefaultString s) = defaultLiteral (DefaultString s') -> s = s')
  /\ (enumLiteral (num:=num) (EnumString s) = enumLiteral (EnumString s') -> s = s')
  /\ (forall (this : Schema num) c op,
        result (condition (alias this)
                  {| target := ByColumn c; operator := op; value := ValueString s |}) this
        = result (condition (alias this)
                    {| target := ByColumn c; operator := op; value := ValueString s' |}) this ->
        s = s').
Proof.
  assert (Hlit : "'" +:+ replaceAll "'" "''" s +:+ "'"
                 = "'" +:+ replaceAll "'" "''" s' +:+ "'" -> s = s').
  { intros Heq. apply (inj (String.app "'")) in Heq.
    apply append_quote_cancel, doubling_injective in Heq. exact Heq. }
  split; [exact Hlit|]. split; [exact Hlit|].
  intros this c op Heq. apply Hlit.
  pose proof (condition_result (alias this)
                {| target := ByColumn c; operator := op; value := ValueString s |} this) as Hs.
  pose proof (condition_result (alias this)
                {| target := ByColumn c; operator := op; value := ValueString s' |} this) as Hs'.
  cbv zeta in Hs, Hs'. cbn [target value operator] in Hs, Hs'.
  rewrite Hs, Hs' in Heq.
  do 6 apply (inj (String.app _)) in Heq. exact Heq.
Qed.

Lemma replaceAll_absent (c : ascii) (by_ s : string) :
  includes s (String c EmptyString) = false -> replaceAll c by_ s = s.
Proof.
  induction s as [|x s IH]; [reflexivity|].
  cbn [includes startsWith replaceAll]. rewrite andb_true_r.
  destruct (Ascii.eqb x c); [discriminate|]. cbn [orb]. intros Hs. rewrite IH by exact Hs.
  reflexivity.
Qed.

(** X14. The label that stands in for a missing one is not quoted like the
    value: for an enumerated string value without a label (and without a
    double quote in it), the arm compares with the value between single
    quotes, its single quotes doubled, but puts the value in
    [Value "<value>"] as it is, single quotes included. *)
Theorem fallback_label_not_doubled (colRef s : string) :
  includes s dq = false ->
  whenThen (num:=num) colRef {| ev_value := EnumString s; ev_label := None |}
  = "WHEN " +:+ colRef +:+ " = '" +:+ replaceAll "'" "''" s +:+ "' THEN 'Value " +:+ dq
    +:+ s +:+ dq +:+ "'".
Proof.
  intros Hs. unfold whenThen. cbn [ev_value ev_label enumLiteral EnumScalar_toString].
  rewrite (replaceAll_absent "034" _ s Hs). rewrite !append_assoc. reflexivity.
Qed.

End Composition.

(** ** How the projections and the statements line up *)

Section Alignment.

Context {num : Type} `{JsNum num}.

(** X15. The three projections line up index by index: when [useLabels] is
    false, the [i]-th entry of [getColumnFields] is the [i]-th entry of
    [getColumnNames], then [ AS ], then the [i]-th entry of
    [getColumnAliases] between double quotes; and the three lists have the
    same length whatever [useLabels] is. *)
Theorem projections_aligned (this : Schema num) (includePrimary useLabels : bool) :
  length (result (getColumnNames includePrimary) this)
  = length (result (getColumnAliases includePrimary) this)
  /\ length (result (getColumnFields includePrimary useLabels) this)
     = length (result (getColumnAliases includePrimary) this)
  /\ forall i columnName columnAlias,
       result (getColumnNames includePrimary) this !! i = Some columnName ->
       result (getColumnAliases includePrimary) this !! i = Some columnAlias ->
       result (getColumnFields includePrimary false) this !! i
       = Some (columnName +:+ " AS " +:+ dq +:+ columnAlias +:+ dq).
Proof.
  rewrite !getColumnFields_result.
  change (result (getColumnNames includePrimary) this)
    with (map (fun col => alias this +:+ "." +:+ name col)
              (List.filter (keep includePrimary) (columns this))).
  change (result (getColumnAliases includePrimary) this)
    with (map (fun col => alias this +:+ "_" +:+ name col)
              (List.filter (keep includePrimary) (columns this))).
  rewrite !length_map. split; [reflexivity|]. split; [reflexivity|].
  generalize (List.filter (keep includePrimary) (columns this)) as kept.
  induction kept as [|col kept IH]; intros [|i] columnName columnAlias Hn Ha;
    try discriminate Hn.
  - cbn in Hn, Ha. injection Hn as <-. injection Ha as <-. cbn [map].
    rewrite columnField_plain by (left; reflexivity).
    cbn. rewrite !append_assoc. reflexivity.
  - cbn in Hn, Ha. cbn [map]. apply (IH i columnName columnAlias Hn Ha).
Qed.

(** X16. When [data] has the alias-key of every column and there is at least
    one column, [sqlInsert(data)] lists [getColumnNames(true)] and, at the
    same positions, the entries of [getColumnAliases(true)] each preceded by
    [$]; keys of [data] that are no alias-key change nothing. *)
Theorem sqlInsert_all_columns (this : Schema num) (data : gmap string (JsValue num)) :
  columns this <> [] ->
  (forall key, In key (result (getColumnAliases true) this) -> is_Some (data !! key)) ->
  result (sqlInsert data) this
  = "INSERT INTO " +:+ result (getTableName true) this +:+ " AS " +:+ result getAlias this
    +:+ " (" +:+ join ", " (result (getColumnNames true) this) +:+ ") VALUES ("
    +:+ join ", " (map (fun key => "$" +:+ key) (result (getColumnAliases true) this))
    +:+ ")".
Proof.
  intros Hcols Hkeys.
  pose proof (sqlInsert_result this data) as Hres. cbv zeta in Hres. rewrite Hres.
  change (result (getColumnAliases true) this)
    with (map (fun col => alias this +:+ "_" +:+ name col)
              (List.filter (keep true) (columns this))) in *.
  change (result (getColumnNames true) this)
    with (map (fun col => alias this +:+ "." +:+ name col)
              (List.filter (keep true) (columns this))).
  rewrite filter_keep_all in *.
  rewrite filter_all.
  - destruct (columns this) as [|col cols]; [contradiction Hcols; reflexivity|].
    rewrite map_map. reflexivity.
  - intros col Hcol. apply present_is_Some, Hkeys.
    apply (in_map (fun col => alias this +:+ "_" +:+ name col)), Hcol.
Qed.

End Alignment.

(** ** The further statements on the descriptors of the examples *)

Lemma alias_is_lower_case_witness :
  result getAlias
    (mutations [AddColumn (inl Example.id)] (new_Schema (num:=Z) "Books" None None None))
  = "books"
  /\ result getAlias
       (mutations [AddColumn (inl Example.id)] (new_Schema (num:=Z) "Books" None None None))
     = result (getTableName true)
         (mutations [AddColumn (inl Example.id)] (new_Schema (num:=Z) "Books" None None None)).
Proof.
  destruct (alias_is_lower_case (num:=Z) "Books" None None None [AddColumn (inl Example.id)])
    as (Ha & _ & _ & Hsame).
  split; [rewrite Ha; reflexivity|]. apply Hsame. left. reflexivity.
Defined.

Lemma getPrimaryKey_spec_witness :
  result (getPrimaryKey true) Example.tested = Some "mt_id"
  /\ In "mt_id" (result (getColumnAliases true) Example.tested)
  /\ result (getPrimaryKey true) Example.keyless = None.
Proof.
  destruct (getPrimaryKey_spec Example.tested true) as (_ & _ & Hkey & _).
  destruct (getPrimaryKey_spec Example.keyless true) as (Hnone & _).
  split; [reflexivity|]. split.
  - apply (Hkey "mt_id"). reflexivity.
  - apply Hnone. repeat constructor. discriminate.
Defined.

Lemma getPrimaryKey_addColumn_witness :
  result (getPrimaryKey true) Example.tested = Some "mt_id"
  /\ result (getPrimaryKey true) (after (addColumn (inr [Sample.second_key])) Example.tested)
     = Some "mt_id".
Proof.
  split; [reflexivity|].
  apply (proj1 (getPrimaryKey_addColumn Example.tested true [Sample.second_key])).
  reflexivity.
Defined.

Lemma sqlUpdate_empty_set_witness :
  FirstPrimary (columns Example.mytable) Example.id
  /\ result (sqlUpdate {[ "id" := JsNumber 1%Z ]}) Example.mytable
     = "UPDATE mytable AS mt SET  WHERE mt.id = $mt_id".
Proof.
  assert (Hpk : FirstPrimary (columns Example.mytable) Example.id)
    by (apply FirstPrimary_here; reflexivity).
  split; [exact Hpk|].
  rewrite (sqlUpdate_empty_set Example.mytable {[ "id" := JsNumber 1%Z ]} Example.id Hpk).
  - reflexivity.
  - intros col [<-|[<-|[]]] [v Hv]; [reflexivity|]. vm_compute in Hv. discriminate Hv.
Defined.

Lemma data_values_unused_witness :
  result (sqlInsert {[ "mt_name" := JsString "x" ]}) Example.mytable
  = result (sqlInsert (<[ "mt_name" := JsNull ]> {[ "other" := JsNumber 1%Z ]}))
           Example.mytable.
Proof.
  apply (proj1 (data_values_unused Example.mytable {[ "mt_name" := JsString "x" ]}
                  (<[ "mt_name" := JsNull ]> {[ "other" := JsNumber 1%Z ]}))).
  intros col [<-|[<-|[]]]; split; intros [v Hv]; vm_compute in Hv;
    try discriminate Hv; eexists; vm_compute; reflexivity.
Defined.

Lemma sqlCreateEnumConstraints_spec_witness :
  Selects (fun col : Column Z => enumValues col <> None) (columns Sample.books) [Sample.kind]
  /\ length (result sqlCreateEnumConstraints Sample.books) = 1%nat
  /\ Forall (fun block => Contains block "CHECK (kind IN ('it''s'));")
            (result sqlCreateEnumConstraints Sample.books).
Proof.
  assert (Hsel : Selects (fun col : Column Z => enumValues col <> None)
                         (columns Sample.books) [Sample.kind]).
  { apply Selects_omit; [intros Hno; apply Hno; reflexivity|].
    apply Selects_omit; [intros Hno; apply Hno; reflexivity|].
    apply Selects_keep; [discriminate | apply Selects_nil]. }
  split; [exact Hsel|]. split.
  - symmetry.
    apply (Forall2_length _ _ _
             (proj1 (sqlCreateEnumConstraints_spec Sample.books [Sample.kind] Hsel))).
  - repeat constructor. apply Contains_includes. vm_compute. reflexivity.
Defined.

Lemma sqlCreateTableConstraints_spec_witness :
  constraints Sample.books !! 1%nat = Some Sample.editor
  /\ exists block,
       result sqlCreateTableConstraints Sample.books !! 1%nat = Some block
       /\ Contains block
            "ADD CONSTRAINT books_editor_fk FOREIGN KEY (editor) REFERENCES people(id) ON DELETE SET NULL ON UPDATE NO ACTION;".
Proof.
  split; [reflexivity|]. eexists. split.
  - apply (proj2 (sqlCreateTableConstraints_spec Sample.books) 1%nat Sample.editor).
    reflexivity.
  - apply Contains_includes. vm_compute. reflexivity.
Defined.

Lemma table_name_case_witness :
  toLowerCase "MYTABLE" = toLowerCase (tableName Example.tested)
  /\ result sqlTableDrop (with_tableName "MYTABLE" Example.tested)
     = "DROP TABLE IF EXISTS mytable;".
Proof.
  split; [reflexivity|].
  destruct (table_name_case Example.tested "MYTABLE" eq_refl) as (_ & _ & _ & Hdrop & _).
  rewrite Hdrop. reflexivity.
Defined.

Lemma filter_shapes_witness :
  result (sqlDelete (OneFilter {| target := ByAlias "id"; operator := Some "<";
                                  value := ValueNumber 5%Z |})) Example.tested
  = result (sqlDelete (OneFilter {| target := ByColumn "id"; operator := Some "<";
                                    value := ValueNumber 5%Z |})) Example.tested.
Proof.
  apply (proj1 (proj2 (filter_shapes Example.tested))).
  intros [rest Hrest]. discriminate Hrest.
Defined.

Lemma quoting_injective_witness :
  defaultLiteral (num:=Z) (DefaultString "it's") = "'it''s'"
  /\ "it's" = "it's".
Proof.
  split; [reflexivity|].
  apply (proj1 (quoting_injective (num:=Z) "it's" "it's")). reflexivity.
Defined.

Lemma fallback_label_not_doubled_witness :
  includes "it's" dq = false
  /\ whenThen (num:=Z) "b.kind" {| ev_value := EnumString "it's"; ev_label := None |}
     = "WHEN b.kind = 'it''s' THEN 'Value " +:+ dq +:+ "it's" +:+ dq +:+ "'".
Proof.
  split; [reflexivity|].
  rewrite (fallback_label_not_doubled (num:=Z) "b.kind" "it's" eq_refl). reflexivity.
Defined.

Lemma projections_aligned_witness :
  result (getColumnNames true) Example.tested !! 1%nat = Some "mt.name"
  /\ result (getColumnAliases true) Example.tested !! 1%nat = Some "mt_name"
  /\ result (getColumnFields true false) Example.tested !! 1%nat
     = Some ("mt.name AS " +:+ dq +:+ "mt_name" +:+ dq).
Proof.
  split; [reflexivity|]. split; [reflexivity|].
  apply (proj2 (proj2 (projections_aligned Example.tested true false)) 1%nat
           "mt.name" "mt_name"); reflexivity.
Defined.

Lemma sqlInsert_all_columns_witness :
  columns Example.mytable <> []
  /\ result (sqlInsert (<[ "mt_id" := JsNumber 7%Z ]> (<[ "mt_name" := JsString "x" ]>
                          {[ "other" := JsNull ]}))) Example.mytable
     = "INSERT INTO mytable AS mt (mt.id, mt.name) VALUES ($mt_id, $mt_name)".
Proof.
  split; [discriminate|].
  rewrite sqlInsert_all_columns.
  - reflexivity.
  - discriminate.
  - intros key [<-|[<-|[]]]; eexists; vm_compute; reflexivity.
Defined.
